(** * opengl-playground: Application.cpp

    A shallow embedding of [src/opengl-playground/src/Application.cpp]:
    the shader-file splitter [ParseShader] as a function on the characters
    the input stream delivers, and [CompileShader], [CreateShader] and
    [main] as interaction trees over the GLFW / GLEW / OpenGL calls they
    make. *)

From Stdlib Require Import String Ascii List ZArith QArith Lia Bool Arith.
From Equations Require Import Equations.
From ITree Require Import ITree Eq.Shallow.
Import ListNotations.
Import ITreeNotations.

Local Open Scope string_scope.
Local Open Scope Z_scope.
Local Open Scope itree_scope.

(** ** Out-of-range accesses

    The C++ code indexes a built-in array with a value computed at run time.
    An index outside the array is undefined behaviour; the embedding stops
    there and records the offending index. *)

Inductive outcome (A : Type) : Type :=
| Ok (a : A)
| OutOfBounds (index : Z).
Arguments Ok {A} a.
Arguments OutOfBounds {A} index.

Definition bind_outcome {A B} (m : outcome A) (k : A -> outcome B) : outcome B :=
  match m with
  | Ok a => k a
  | OutOfBounds i => OutOfBounds i
  end.

(** ** std::string::find and std::getline *)

(** [line.find(pat)]: position of the first occurrence, [None] for
    [std::string::npos]. *)
Definition find (line pat : string) : option nat := String.index 0 pat line.

(** [r != std::string::npos] *)
Definition found (r : option nat) : bool :=
  match r with
  | Some _ => true
  | None => false
  end.

Definition newline : ascii := ascii_of_nat 10.

(** Characters up to the first newline (not stored), and what follows it. *)
Fixpoint read_line (stream : string) : string * string :=
  match stream with
  | EmptyString => (EmptyString, EmptyString)
  | String c rest =>
      if Ascii.eqb c newline then (EmptyString, rest)
      else let (line, rest') := read_line rest in (String c line, rest')
  end.

(** [getline(stream, line)]: fails ([None]) when no character could be
    extracted, otherwise yields the line and the remaining stream. *)
Definition getline (stream : string) : option (string * string) :=
  match stream with
  | EmptyString => None
  | String _ _ => Some (read_line stream)
  end.

Lemma read_line_length (stream : string) :
  (String.length (snd (read_line stream)) <= String.length stream)%nat.
Proof.
  induction stream as [|c rest IH]; simpl; [lia|].
  destruct (Ascii.eqb c newline); simpl; [lia|].
  destruct (read_line rest) as [line rest']; simpl in *; lia.
Qed.

Lemma getline_shorter (stream line rest : string) :
  getline stream = Some (line, rest) ->
  (String.length rest < String.length stream)%nat.
Proof.
  destruct stream as [|c s]; [discriminate|].
  unfold getline. intros H. injection H as H.
  simpl in H. destruct (Ascii.eqb c newline).
  - injection H as _ <-. simpl. lia.
  - pose proof (read_line_length s) as L.
    destruct (read_line s) as [l r]. injection H as _ <-. simpl in *. lia.
Qed.

(** ** ParseShader *)

Record ShaderProgramSource : Type := {
  vertexSource : string;
  fragmentSource : string
}.

Inductive ShaderType : Type := NONE | VERTEX | FRAGMENT.

(** The enumerators' values, [(int)type]. *)
Definition ShaderType_int (t : ShaderType) : Z :=
  match t with
  | NONE => -1
  | VERTEX => 0
  | FRAGMENT => 1
  end.

(** [std::stringstream ss[2]]: each stream is modelled by its buffer. *)
Definition sstreams : Type := list string.

Definition ss_init : sstreams := [EmptyString; EmptyString].

Fixpoint ss_put (ss : sstreams) (i : nat) (text : string) : sstreams :=
  match ss, i with
  | [], _ => []
  | s :: ss', O => (s ++ text) :: ss'
  | s :: ss', S i' => s :: ss_put ss' i' text
  end.

(** [ss[i] << text] *)
Definition ss_write (ss : sstreams) (i : Z) (text : string) : outcome sstreams :=
  if (0 <=? i) && (i <? Z.of_nat (List.length ss))
  then Ok (ss_put ss (Z.to_nat i) text)
  else OutOfBounds i.

(** [ss[i].str()] for a constant index inside the array. *)
Definition ss_str (ss : sstreams) (i : nat) : string := nth i ss EmptyString.

Record parse_state : Type := {
  ss : sstreams;
  type : ShaderType
}.

(** Body of the [while (getline(stream, line))] loop. *)
Definition parse_line (st : parse_state) (line : string) : outcome parse_state :=
  if found (find line "#shader") then
    if found (find line "vertex") then
      Ok {| ss := ss st; type := VERTEX |}
    else if found (find line "fragment") then
      Ok {| ss := ss st; type := FRAGMENT |}
    else Ok st
  else
    bind_outcome
      (ss_write (ss st) (ShaderType_int (type st)) (line ++ String newline EmptyString))
      (fun ss' => Ok {| ss := ss'; type := type st |}).

Definition inspect {A} (a : A) : {b : A | a = b} := exist _ a eq_refl.

Equations parse_loop (stream : string) (st : parse_state) : outcome parse_state
  by wf (String.length stream) lt :=
  parse_loop stream st with inspect (getline stream) := {
    | exist _ None _ => Ok st
    | exist _ (Some (line, rest)) Hget with parse_line st line => {
        | Ok st' => parse_loop rest st'
        | OutOfBounds i => OutOfBounds i } }.
Next Obligation.
  eapply getline_shorter; eassumption.
Qed.

(** The file system as the program sees it: a path opens or it does not. *)
Definition filesystem : Type := string -> option string.

(** [std::ifstream stream(filepath)]: a stream that failed to open delivers
    no character, like an empty one. *)
Definition ifstream (fs : filesystem) (filepath : string) : string :=
  match fs filepath with
  | Some contents => contents
  | None => EmptyString
  end.

Definition ParseShader (fs : filesystem) (filepath : string)
  : outcome ShaderProgramSource :=
  bind_outcome
    (parse_loop (ifstream fs filepath) {| ss := ss_init; type := NONE |})
    (fun st => Ok {| vertexSource := ss_str (ss st) 0;
                     fragmentSource := ss_str (ss st) 1 |}).

(** ** The file seen as a sequence of lines *)

(** The lines that successive [getline] calls deliver, until one fails. *)
Equations getlines (stream : string) : list string
  by wf (String.length stream) lt :=
  getlines stream with inspect (getline stream) := {
    | exist _ None _ => []
    | exist _ (Some (line, rest)) Hget => line :: getlines rest }.
Next Obligation.
  eapply getline_shorter; eassumption.
Qed.

(** The loop of [ParseShader] run over lines already cut. *)
Fixpoint parse_lines (lines : list string) (st : parse_state) : outcome parse_state :=
  match lines with
  | [] => Ok st
  | line :: lines' => bind_outcome (parse_line st line) (parse_lines lines')
  end.

(** A text file written from its lines, each one terminated. *)
Fixpoint unlines (lines : list string) : string :=
  match lines with
  | [] => EmptyString
  | line :: lines' => line ++ String newline (unlines lines')
  end.

(** [pat] occurs somewhere in [s]. *)
Definition occurs_in (pat s : string) : Prop :=
  exists pre post, s = pre ++ pat ++ post.

Definition no_newline (line : string) : Prop :=
  ~ occurs_in (String newline EmptyString) line.

(** A line without the marker token. *)
Definition plain_line (line : string) : bool := negb (found (find line "#shader")).

(** What one section contributes to its block: its lines without the marker
    token, each followed by a line terminator. *)
Definition block_of (body : list string) : string :=
  unlines (filter plain_line body).

(** A marker line as the loader classifies it. *)
Definition vertex_marker (line : string) : Prop :=
  occurs_in "#shader" line /\ occurs_in "vertex" line.

Definition fragment_marker (line : string) : Prop :=
  occurs_in "#shader" line /\ occurs_in "fragment" line /\ ~ occurs_in "vertex" line.

(** A line that starts no section: if it carries the marker token, it names
    no stage. *)
Definition starts_no_section (line : string) : Prop :=
  occurs_in "#shader" line ->
  ~ occurs_in "vertex" line /\ ~ occurs_in "fragment" line.

(** ** The windowing layer and the graphics driver

    GLFW, GLEW and OpenGL are outside the program. Each call is an event;
    its answer is whatever the library returns or writes through the
    pointers it is given. *)

Inductive GLenum : Type :=
| GL_VERTEX_SHADER | GL_FRAGMENT_SHADER
| GL_COMPILE_STATUS | GL_INFO_LOG_LENGTH
| GL_ARRAY_BUFFER | GL_ELEMENT_ARRAY_BUFFER | GL_STATIC_DRAW
| GL_FLOAT | GL_UNSIGNED_INT | GL_TRIANGLES
| GL_COLOR_BUFFER_BIT | GL_VERSION.

Definition GLenum_eqb (a b : GLenum) : bool :=
  match a, b with
  | GL_VERTEX_SHADER, GL_VERTEX_SHADER
  | GL_FRAGMENT_SHADER, GL_FRAGMENT_SHADER
  | GL_COMPILE_STATUS, GL_COMPILE_STATUS
  | GL_INFO_LOG_LENGTH, GL_INFO_LOG_LENGTH
  | GL_ARRAY_BUFFER, GL_ARRAY_BUFFER
  | GL_ELEMENT_ARRAY_BUFFER, GL_ELEMENT_ARRAY_BUFFER
  | GL_STATIC_DRAW, GL_STATIC_DRAW
  | GL_FLOAT, GL_FLOAT
  | GL_UNSIGNED_INT, GL_UNSIGNED_INT
  | GL_TRIANGLES, GL_TRIANGLES
  | GL_COLOR_BUFFER_BIT, GL_COLOR_BUFFER_BIT
  | GL_VERSION, GL_VERSION => true
  | _, _ => false
  end.

Definition GL_FALSE : Z := 0.
Definition GLEW_OK : Z := 0.

(** A non-null [GLFWwindow*]. *)
Definition GLFWwindow : Type := positive.

(** A value of type [size_t], kept as the integer it was converted from:
    its value is that integer modulo [2 ^ width], for the width the
    compiler gives [size_t]. *)
Inductive size_t : Type :=
| to_size_t (z : Z).

Definition size_t_value (width : Z) (s : size_t) : Z :=
  match s with
  | to_size_t z => z mod 2 ^ width
  end.

(** What [std::cout << message] finds at a [char*]: a text that was stored
    there, or bytes the program never wrote. The event [cout_c_str message]
    is the statement [std::cout << message << std::endl]. *)
Inductive c_string : Type :=
| written (text : string)
| uninitialised.

(** The array a pointer argument points to. *)
Inductive array : Type :=
| floats (elements : list Q)
| unsigned_ints (elements : list Z).

Variant glE : Type -> Type :=
| glfwInit : glE Z
| glfwCreateWindow (width height : Z) (title : string) (monitor share : Z)
    : glE (option GLFWwindow)
| glfwTerminate : glE unit
| glfwMakeContextCurrent (window : GLFWwindow) : glE unit
| glfwWindowShouldClose (window : GLFWwindow) : glE Z
| glfwSwapBuffers (window : GLFWwindow) : glE unit
| glfwPollEvents : glE unit
| glewInit : glE Z
| glGetString (name : GLenum) : glE string
| glGenBuffers (n : Z) : glE Z
| glBindBuffer (target : GLenum) (buffer : Z) : glE unit
| glBufferData (target : GLenum) (size : Z) (data : array) (usage : GLenum) : glE unit
| glEnableVertexAttribArray (index : Z) : glE unit
| glVertexAttribPointer (index size : Z) (type : GLenum) (normalized : Z)
                        (stride pointer : Z) : glE unit
| glCreateShader (type : GLenum) : glE Z
| glShaderSource (shader count : Z) (src : string) : glE unit
| glCompileShader (shader : Z) : glE unit
| glGetShaderiv (shader : Z) (pname : GLenum) : glE Z
| glGetShaderInfoLog (shader bufSize : Z) : glE (Z * string)
| glDeleteShader (shader : Z) : glE unit
| glCreateProgram : glE Z
| glAttachShader (program shader : Z) : glE unit
| glLinkProgram (program : Z) : glE unit
| glValidateProgram (program : Z) : glE unit
| glUseProgram (program : Z) : glE unit
| glDeleteProgram (program : Z) : glE unit
| glClear (mask : GLenum) : glE unit
| glDrawElements (mode : GLenum) (count : Z) (type : GLenum) (indices : Z) : glE unit
| alloca (size : size_t) : glE unit
| cout (text : string) : glE unit
| cout_c_str (message : c_string) : glE unit
| undefined (index : Z) : glE Empty_set.

Definition call {X} (e : glE X) : itree glE X := ITree.trigger e.

Definition endl : string := String newline EmptyString.

Definition sizeof_char : Z := 1.

(** The buffer [message] after [glGetShaderInfoLog(shader, length, ...)]: the
    driver stores its text, terminated, where there is room for it; a buffer
    of [length <= 0] bytes has room for nothing and stays as [alloca] left
    it. *)
Definition message_after (length : Z) (log : Z * string) : c_string :=
  if 0 <? length then written (snd log) else uninitialised.

(** ** CompileShader and CreateShader *)

Definition CompileShader (type : GLenum) (source : string) : itree glE Z :=
  shader_id <- call (glCreateShader type);;
  call (glShaderSource shader_id 1 source);;
  call (glCompileShader shader_id);;
  result <- call (glGetShaderiv shader_id GL_COMPILE_STATUS);;
  if result =? GL_FALSE then
    length <- call (glGetShaderiv shader_id GL_INFO_LOG_LENGTH);;
    call (alloca (to_size_t (length * sizeof_char)));;
    log <- call (glGetShaderInfoLog shader_id length);;
    call (cout ("Failed to compile "
                ++ (if GLenum_eqb type GL_VERTEX_SHADER then "vertex" else "fragment")
                ++ " shader!" ++ endl));;
    call (cout_c_str (message_after length log));;
    call (glDeleteShader shader_id);;
    Ret 0
  else
    Ret shader_id.

Definition CreateShader (vertexShader fragmentShader : string) : itree glE Z :=
  program <- call glCreateProgram;;
  vs <- CompileShader GL_VERTEX_SHADER vertexShader;;
  fs <- CompileShader GL_FRAGMENT_SHADER fragmentShader;;
  call (glAttachShader program vs);;
  call (glAttachShader program fs);;
  call (glLinkProgram program);;
  call (glValidateProgram program);;
  call (glDeleteShader vs);;
  call (glDeleteShader fs);;
  Ret program.

(** ** main *)

(** Sizes the compiler gives the element types of the two arrays. *)
Record platform : Type := {
  sizeof_float : Z;
  sizeof_unsigned_int : Z
}.

Definition positions : list Q :=
  [ -(1#2); -(1#2);
     (1#2); -(1#2);
     (1#2);  (1#2);
    -(1#2);  (1#2) ]%Q.

Definition indices : list Z :=
  [ 0; 1; 2;
    2; 3; 0 ].

(** One pass through the body of the render loop. *)
Definition render_frame (window : GLFWwindow) : itree glE unit :=
  call (glClear GL_COLOR_BUFFER_BIT);;
  call (glDrawElements GL_TRIANGLES 6 GL_UNSIGNED_INT 0);;
  call (glfwSwapBuffers window);;
  call glfwPollEvents.

(** [while (!glfwWindowShouldClose(window)) { ... }] *)
Definition render_loop (window : GLFWwindow) : itree glE unit :=
  ITree.iter
    (fun _ : unit =>
       close <- call (glfwWindowShouldClose window);;
       if close =? 0 then render_frame window;; Ret (inl tt)
       else Ret (inr tt))
    tt.

(** From the render loop to the end of [main]. *)
Definition render_and_shutdown (window : GLFWwindow) (shader : Z) : itree glE Z :=
  render_loop window;;
  call (glDeleteProgram shader);;
  call glfwTerminate;;
  Ret 0.

(** Geometry upload, between context creation and shader loading. *)
Definition upload_geometry (pf : platform) : itree glE unit :=
  buffer <- call (glGenBuffers 1);;
  call (glBindBuffer GL_ARRAY_BUFFER buffer);;
  call (glBufferData GL_ARRAY_BUFFER (6 * 2 * sizeof_float pf)
                     (floats positions) GL_STATIC_DRAW);;
  call (glEnableVertexAttribArray 0);;
  call (glVertexAttribPointer 0 2 GL_FLOAT GL_FALSE (sizeof_float pf * 2) 0);;
  indexBufferObject <- call (glGenBuffers 1);;
  call (glBindBuffer GL_ELEMENT_ARRAY_BUFFER indexBufferObject);;
  call (glBufferData GL_ELEMENT_ARRAY_BUFFER (6 * sizeof_unsigned_int pf)
                     (unsigned_ints indices) GL_STATIC_DRAW).

(** From the creation of the program object to the end of [main]. *)
Definition draw_with (window : GLFWwindow) (source : ShaderProgramSource)
  : itree glE Z :=
  shader <- CreateShader (vertexSource source) (fragmentSource source);;
  call (glUseProgram shader);;
  render_and_shutdown window shader.

Definition main (pf : platform) (fs : filesystem) : itree glE Z :=
  ok <- call glfwInit;;
  if ok =? 0 then Ret (-1)
  else
    window <- call (glfwCreateWindow 640 480 "Hello World" 0 0);;
    match window with
    | None =>
        call glfwTerminate;;
        Ret (-1)
    | Some window =>
        call (glfwMakeContextCurrent window);;
        status <- call glewInit;;
        (if status =? GLEW_OK then Ret tt else call (cout ("ERROR" ++ endl)));;
        version <- call (glGetString GL_VERSION);;
        call (cout (version ++ endl));;
        upload_geometry pf;;
        match ParseShader fs "res/shaders/Basic.shader" with
        | OutOfBounds i =>
            stuck <- call (undefined i);;
            match stuck : Empty_set with end
        | Ok source => draw_with window source
        end
    end.

(** ** Runs

    A run of a program is the sequence of calls it made, each with the
    answer it got, and the value it returned. *)

Inductive obs : Type :=
| Obs {X : Type} (e : glE X) (answer : X).

Inductive runs {R : Type} : itree glE R -> list obs -> R -> Prop :=
| runs_ret (t : itree glE R) (r : R) :
    observe t = RetF r -> runs t [] r
| runs_tau (t u : itree glE R) (tr : list obs) (r : R) :
    observe t = TauF u -> runs u tr r -> runs t tr r
| runs_vis (t : itree glE R) {X : Type} (e : glE X) (k : X -> itree glE R)
           (x : X) (tr : list obs) (r : R) :
    observe t = VisF e k -> runs (k x) tr r -> runs t (Obs e x :: tr) r.

(** The calls made up to some moment of an execution, finished or not. *)
Inductive trace_of {R : Type} : itree glE R -> list obs -> Prop :=
| trace_nil (t : itree glE R) : trace_of t []
| trace_tau (t u : itree glE R) (tr : list obs) :
    observe t = TauF u -> trace_of u tr -> trace_of t tr
| trace_vis (t : itree glE R) {X : Type} (e : glE X) (k : X -> itree glE R)
            (x : X) (tr : list obs) :
    observe t = VisF e k -> trace_of (k x) tr -> trace_of t (Obs e x :: tr).

(** Every call of every execution of [t] satisfies [P]. *)
Definition always {R : Type} (P : obs -> Prop) (t : itree glE R) : Prop :=
  forall tr, trace_of t tr -> Forall P tr.

(** ** The call sequences of the program *)

(** What [CompileShader] does for every source: create, submit, compile,
    ask for the status. *)
Definition compile_calls (type : GLenum) (source : string) (id result : Z)
  : list obs :=
  [ Obs (glCreateShader type) id;
    Obs (glShaderSource id 1 source) tt;
    Obs (glCompileShader id) tt;
    Obs (glGetShaderiv id GL_COMPILE_STATUS) result ].

Definition stage_name (type : GLenum) : string :=
  match type with
  | GL_VERTEX_SHADER => "vertex"
  | _ => "fragment"
  end.

(** What [CompileShader] does after a failed compilation. *)
Definition failure_calls (type : GLenum) (id length : Z) (log : Z * string)
  : list obs :=
  [ Obs (glGetShaderiv id GL_INFO_LOG_LENGTH) length;
    Obs (alloca (to_size_t (length * sizeof_char))) tt;
    Obs (glGetShaderInfoLog id length) log;
    Obs (cout ("Failed to compile " ++ stage_name type ++ " shader!" ++ endl)) tt;
    Obs (cout_c_str (message_after length log)) tt;
    Obs (glDeleteShader id) tt ].

(** What [CreateShader] does once both stages went through [CompileShader]. *)
Definition link_calls (program vs fs : Z) : list obs :=
  [ Obs (glAttachShader program vs) tt;
    Obs (glAttachShader program fs) tt;
    Obs (glLinkProgram program) tt;
    Obs (glValidateProgram program) tt;
    Obs (glDeleteShader vs) tt;
    Obs (glDeleteShader fs) tt ].

(** One iteration of the render loop: the close request is denied, then the
    frame is drawn. *)
Definition frame_calls (window : GLFWwindow) : list obs :=
  [ Obs (glfwWindowShouldClose window) 0;
    Obs (glClear GL_COLOR_BUFFER_BIT) tt;
    Obs (glDrawElements GL_TRIANGLES 6 GL_UNSIGNED_INT 0) tt;
    Obs (glfwSwapBuffers window) tt;
    Obs glfwPollEvents tt ].

Fixpoint frames (window : GLFWwindow) (n : nat) : list obs :=
  match n with
  | O => []
  | S n' => frame_calls window ++ frames window n'
  end.

(** The close request is granted with answer [close]; the program object is
    released and the windowing layer shut down. *)
Definition closing_calls (window : GLFWwindow) (shader close : Z) : list obs :=
  [ Obs (glfwWindowShouldClose window) close;
    Obs (glDeleteProgram shader) tt;
    Obs glfwTerminate tt ].

(** The geometry upload, with the names the driver generated. *)
Definition upload_calls (pf : platform) (buffer indexBufferObject : Z) : list obs :=
  [ Obs (glGenBuffers 1) buffer;
    Obs (glBindBuffer GL_ARRAY_BUFFER buffer) tt;
    Obs (glBufferData GL_ARRAY_BUFFER (6 * 2 * sizeof_float pf)
                      (floats positions) GL_STATIC_DRAW) tt;
    Obs (glEnableVertexAttribArray 0) tt;
    Obs (glVertexAttribPointer 0 2 GL_FLOAT GL_FALSE (sizeof_float pf * 2) 0) tt;
    Obs (glGenBuffers 1) indexBufferObject;
    Obs (glBindBuffer GL_ELEMENT_ARRAY_BUFFER indexBufferObject) tt;
    Obs (glBufferData GL_ELEMENT_ARRAY_BUFFER (6 * sizeof_unsigned_int pf)
                      (unsigned_ints indices) GL_STATIC_DRAW) tt ].

(** Start of [main] when the window could be created. *)
Definition startup_calls (ok : Z) (window : GLFWwindow) (status : Z)
           (version : string) : list obs :=
  [ Obs glfwInit ok;
    Obs (glfwCreateWindow 640 480 "Hello World" 0 0) (Some window);
    Obs (glfwMakeContextCurrent window) tt;
    Obs glewInit status ]
  ++ (if status =? GLEW_OK then [] else [Obs (cout ("ERROR" ++ endl)) tt])
  ++ [ Obs (glGetString GL_VERSION) version;
       Obs (cout (version ++ endl)) tt ].

(** Bytes an array occupies. *)
Definition array_bytes (pf : platform) (a : array) : Z :=
  match a with
  | floats elements => Z.of_nat (List.length elements) * sizeof_float pf
  | unsigned_ints elements => Z.of_nat (List.length elements) * sizeof_unsigned_int pf
  end.

(** Components per vertex, as [glVertexAttribPointer] is told. *)
Definition components_per_vertex : Z := 2.

Definition vertex_count : Z :=
  Z.of_nat (List.length positions) / components_per_vertex.

(** Answer of [glewInit] in a sequence of calls, if it was called. *)
Fixpoint glewInit_answer (tr : list obs) : option Z :=
  match tr with
  | [] => None
  | Obs e x :: tr' =>
      match e in glE X return X -> option Z with
      | glewInit => fun status => Some status
      | _ => fun _ => glewInit_answer tr'
      end x
  end.

Definition is_draw (o : obs) : bool :=
  match o with
  | Obs (glDrawElements _ _ _ _) _ => true
  | Obs _ _ => false
  end.

Definition is_buffer_write (o : obs) : bool :=
  match o with
  | Obs (glBufferData _ _ _ _) _ => true
  | Obs _ _ => false
  end.

(** The one draw call of the program. *)
Definition the_draw : obs :=
  Obs (glDrawElements GL_TRIANGLES (Z.of_nat (List.length indices)) GL_UNSIGNED_INT 0) tt.

(** The two buffer uploads of the program. *)
Definition the_uploads (pf : platform) : list obs :=
  [ Obs (glBufferData GL_ARRAY_BUFFER (6 * 2 * sizeof_float pf)
                      (floats positions) GL_STATIC_DRAW) tt;
    Obs (glBufferData GL_ELEMENT_ARRAY_BUFFER (6 * sizeof_unsigned_int pf)
                      (unsigned_ints indices) GL_STATIC_DRAW) tt ].

(** What holds of a call made once drawing has begun: it writes no buffer,
    and if it draws, it is the one draw call. *)
Definition drawing_call (o : obs) : Prop :=
  is_buffer_write o = false /\ (is_draw o = true -> o = the_draw).

(** [p] is the beginning of [l]. *)
Definition begins (p l : list obs) : Prop := exists q, l = (p ++ q)%list.

(** ** A concrete setting, used to instantiate the theorems *)

(** A file system holding one file. *)
Definition one_file (path contents : string) : filesystem :=
  fun p => if String.eqb p path then Some contents else None.

Definition example_vertex_body : list string :=
  [ "#version 330 core";
    "layout(location = 0) in vec4 position;";
    "void main()";
    "{";
    "   gl_Position = position;";
    "}" ].

Definition example_fragment_body : list string :=
  [ "#version 330 core";
    "layout(location = 0) out vec4 color;";
    "void main()";
    "{";
    "   color = vec4(1.0, 0.0, 0.0, 1.0);";
    "}" ].

(** A shader file in the format [ParseShader] reads. *)
Definition example_shader : string :=
  unlines ("#shader vertex" :: example_vertex_body
           ++ "#shader fragment" :: example_fragment_body).

Definition example_fs : filesystem :=
  one_file "res/shaders/Basic.shader" example_shader.

Definition example_platform : platform :=
  {| sizeof_float := 4; sizeof_unsigned_int := 4 |}.

(** The sources [ParseShader] cuts out of the example file. *)
Definition example_source : ShaderProgramSource :=
  {| vertexSource := unlines example_vertex_body;
     fragmentSource := unlines example_fragment_body |}.

Definition example_window : GLFWwindow := 1%positive.

(** A whole execution of [main]: GLEW answers [status], both stages compile
    (stage objects 1 and 2, program object 3), two frames are drawn, then the
    window is closed. *)
Definition example_calls (status : Z) : list obs :=
  (startup_calls 1 example_window status "4.6.0"
   ++ upload_calls example_platform 1 2
   ++ (Obs glCreateProgram 3
       :: compile_calls GL_VERTEX_SHADER (vertexSource example_source) 1 1
       ++ compile_calls GL_FRAGMENT_SHADER (fragmentSource example_source) 2 1
       ++ link_calls 3 1 2)
   ++ Obs (glUseProgram 3) tt
   :: frames example_window 2 ++ closing_calls example_window 3 1)%list.

(** The example execution up to its first draw call, and after it. *)
Definition example_before_draw : list obs :=
  (startup_calls 1 example_window 0 "4.6.0"
   ++ upload_calls example_platform 1 2
   ++ (Obs glCreateProgram 3
       :: compile_calls GL_VERTEX_SHADER (vertexSource example_source) 1 1
       ++ compile_calls GL_FRAGMENT_SHADER (fragmentSource example_source) 2 1
       ++ link_calls 3 1 2)
   ++ [ Obs (glUseProgram 3) tt;
        Obs (glfwWindowShouldClose example_window) 0;
        Obs (glClear GL_COLOR_BUFFER_BIT) tt ])%list.

Definition example_after_draw : list obs :=
  ([ Obs (glfwSwapBuffers example_window) tt; Obs glfwPollEvents tt ]
   ++ frames example_window 1 ++ closing_calls example_window 3 1)%list.

(** ** Files of any number of sections *)

(** A section of a shader file: the stage its marker line names, the marker
    line, and the lines up to the next section. *)
Record section : Type := {
  stage : ShaderType;
  marker : string;
  body : list string
}.

Definition well_formed (s : section) : Prop :=
  ((stage s = VERTEX /\ vertex_marker (marker s))
   \/ (stage s = FRAGMENT /\ fragment_marker (marker s)))
  /\ Forall starts_no_section (body s).

Definition ShaderType_eqb (a b : ShaderType) : bool :=
  match a, b with
  | NONE, NONE | VERTEX, VERTEX | FRAGMENT, FRAGMENT => true
  | _, _ => false
  end.

(** The lines of a file made of these sections. *)
Fixpoint file_lines (sections : list section) : list string :=
  match sections with
  | [] => []
  | s :: sections' => (marker s :: body s) ++ file_lines sections'
  end.

(** The blocks of the sections of stage [t], one after the other. *)
Fixpoint stage_block (t : ShaderType) (sections : list section) : string :=
  match sections with
  | [] => EmptyString
  | s :: sections' =>
      if ShaderType_eqb (stage s) t
      then block_of (body s) ++ stage_block t sections'
      else stage_block t sections'
  end.

(** A line that carries the marker token and names no stage. *)
Definition stageless_marker (line : string) : Prop :=
  occurs_in "#shader" line /\ ~ occurs_in "vertex" line /\ ~ occurs_in "fragment" line.

(** [l] is [l1] and [l2] shuffled together, each in its own order. *)
Inductive interleave {A : Type} : list A -> list A -> list A -> Prop :=
| interleave_nil : interleave [] [] []
| interleave_left (a : A) (l1 l2 l : list A) :
    interleave l1 l2 l -> interleave (a :: l1) l2 (a :: l)
| interleave_right (a : A) (l1 l2 l : list A) :
    interleave l1 l2 l -> interleave l1 (a :: l2) (a :: l).

(** A shader file written from its two blocks, vertex section first. *)
Definition write_shader (source : ShaderProgramSource) : string :=
  "#shader vertex" ++ String newline (vertexSource source)
  ++ "#shader fragment" ++ String newline (fragmentSource source).

(** Handles [glCreateShader] answered, in order. *)
Fixpoint created_shaders (tr : list obs) : list Z :=
  match tr with
  | [] => []
  | Obs e x :: tr' =>
      match e in glE X return X -> list Z with
      | glCreateShader _ => fun id => id :: created_shaders tr'
      | _ => fun _ => created_shaders tr'
      end x
  end.

(** Handles handed to [glDeleteShader], in order. *)
Fixpoint deleted_shaders (tr : list obs) : list Z :=
  match tr with
  | [] => []
  | Obs e _ :: tr' =>
      match e with
      | glDeleteShader id => id :: deleted_shaders tr'
      | _ => deleted_shaders tr'
      end
  end.

Definition is_program_creation (o : obs) : bool :=
  match o with
  | Obs glCreateProgram _ => true
  | Obs _ _ => false
  end.



(** A run of [CreateShader] in which the vertex stage (handle 1) fails to
    compile and the fragment stage (handle 2) compiles. *)
Definition example_failed_vertex_calls : list obs :=
  (Obs glCreateProgram 3
   :: (compile_calls GL_VERTEX_SHADER "void main() {" 1 GL_FALSE
       ++ failure_calls GL_VERTEX_SHADER 1 13 (12, "syntax error"))
   ++ compile_calls GL_FRAGMENT_SHADER "void main() {}" 2 1
   ++ link_calls 3 0 2)%list.




(** ** Facts about [find] *)

Lemma prefix_iff (pat s : string) :
  String.prefix pat s = true <-> exists post, s = pat ++ post.
Proof.
  rewrite prefix_correct. revert s.
  induction pat as [|a pat IH]; intros s.
  - split; [intros _; exists s; reflexivity|].
    intros _. destruct s; reflexivity.
  - destruct s as [|b s]; simpl.
    + split; [discriminate|]. intros [post H]. discriminate.
    + split.
      * intros H. injection H as -> H. apply IH in H as [post ->].
        exists post. reflexivity.
      * intros [post H]. injection H as -> ->. f_equal.
        apply IH. exists post. reflexivity.
Qed.

Lemma occurs_in_empty (pat : string) :
  occurs_in pat EmptyString <-> pat = EmptyString.
Proof.
  split.
  - intros (pre & post & H). destruct pre; [|discriminate].
    destruct pat; [reflexivity|discriminate].
  - intros ->. exists EmptyString, EmptyString. reflexivity.
Qed.

Lemma occurs_in_cons (pat : string) (b : ascii) (s : string) :
  occurs_in pat (String b s) <->
  (exists post, String b s = pat ++ post) \/ occurs_in pat s.
Proof.
  split.
  - intros (pre & post & H). destruct pre as [|c pre].
    + left. exists post. exact H.
    + right. injection H as _ ->. exists pre, post. reflexivity.
  - intros [[post H] | (pre & post & ->)].
    + exists EmptyString, post. exact H.
    + exists (String b pre), post. reflexivity.
Qed.

(** [find] answers a position exactly when the pattern occurs in the line. *)
Lemma find_spec (line pat : string) :
  found (find line pat) = true <-> occurs_in pat line.
Proof.
  unfold find. induction line as [|b s IH].
  - rewrite occurs_in_empty. simpl. destruct pat; simpl; split; congruence.
  - rewrite occurs_in_cons, <- IH, <- prefix_iff.
    change (String.index 0 pat (String b s))
      with (if String.prefix pat (String b s) then Some 0%nat
            else match String.index 0 pat s with
                 | Some n => Some (S n)
                 | None => None
                 end).
    destruct (String.prefix pat (String b s)).
    + split; auto.
    + destruct (String.index 0 pat s); simpl; split; auto.
      intros [H | H]; congruence.
Qed.

Lemma find_none (line pat : string) :
  found (find line pat) = false <-> ~ occurs_in pat line.
Proof.
  rewrite <- find_spec. destruct (found (find line pat)); split; congruence.
Qed.

(** ** Facts about the loop *)

Lemma getlines_eq (stream : string) :
  getlines stream =
  match getline stream with
  | None => []
  | Some (line, rest) => line :: getlines rest
  end.
Proof.
  funelim (getlines stream);
    match goal with H : getline stream = _ |- _ => rewrite H end;
    reflexivity.
Qed.

Lemma parse_loop_lines (stream : string) (st : parse_state) :
  parse_loop stream st = parse_lines (getlines stream) st.
Proof.
  funelim (parse_loop stream st); rewrite (getlines_eq stream);
    match goal with H : getline stream = _ |- _ => rewrite H end; simpl;
    try match goal with H : parse_line _ _ = _ |- _ => rewrite H end; simpl;
    solve [reflexivity | assumption].
Qed.

Lemma read_line_terminated (line rest : string) :
  no_newline line ->
  read_line (line ++ String newline rest) = (line, rest).
Proof.
  induction line as [|c line IH]; intros Hn; simpl.
  - reflexivity.
  - destruct (Ascii.eqb_spec c newline) as [-> | _].
    + exfalso. apply Hn. exists EmptyString, line. reflexivity.
    + rewrite IH; [reflexivity|].
      intros (pre & post & ->). apply Hn. exists (String c pre), post. reflexivity.
Qed.

(** Cutting a file written from newline-free lines gives the lines back. *)
Lemma getlines_unlines (lines : list string) :
  Forall no_newline lines -> getlines (unlines lines) = lines.
Proof.
  induction 1 as [|line lines Hn _ IH]; rewrite getlines_eq.
  - reflexivity.
  - pose proof (read_line_terminated line (unlines lines) Hn) as R.
    simpl. unfold getline.
    destruct (line ++ String newline (unlines lines)) eqn:E.
    + destruct line; discriminate.
    + rewrite R, IH. reflexivity.
Qed.

Lemma parse_lines_app (l1 l2 : list string) (st : parse_state) :
  parse_lines (l1 ++ l2) st = bind_outcome (parse_lines l1 st) (parse_lines l2).
Proof.
  revert st. induction l1 as [|line l1 IH]; intros st; simpl; [reflexivity|].
  destruct (parse_line st line); simpl; auto.
Qed.

Lemma parse_line_vertex (st : parse_state) (line : string) :
  vertex_marker line ->
  parse_line st line = Ok {| ss := ss st; type := VERTEX |}.
Proof.
  intros [Hm Hv]. apply find_spec in Hm, Hv.
  unfold parse_line. rewrite Hm, Hv. reflexivity.
Qed.

Lemma parse_line_fragment (st : parse_state) (line : string) :
  fragment_marker line ->
  parse_line st line = Ok {| ss := ss st; type := FRAGMENT |}.
Proof.
  intros (Hm & Hf & Hv). apply find_spec in Hm, Hf. apply find_none in Hv.
  unfold parse_line. rewrite Hm, Hf, Hv. reflexivity.
Qed.

Lemma parse_line_plain (st : parse_state) (line : string) :
  plain_line line = true ->
  parse_line st line =
  bind_outcome (ss_write (ss st) (ShaderType_int (type st)) (line ++ String newline EmptyString))
               (fun ss' => Ok {| ss := ss'; type := type st |}).
Proof.
  unfold plain_line, parse_line. intros H. apply negb_true_iff in H.
  rewrite H. reflexivity.
Qed.

Lemma parse_line_stageless (st : parse_state) (line : string) :
  plain_line line = false -> starts_no_section line ->
  parse_line st line = Ok st.
Proof.
  unfold plain_line, parse_line. intros H Hs. apply negb_false_iff in H.
  rewrite H. apply find_spec in H. destruct (Hs H) as [Hv Hf].
  apply find_none in Hv, Hf. rewrite Hv, Hf. reflexivity.
Qed.

Lemma append_assoc (a b c : string) : (a ++ b) ++ c = a ++ (b ++ c).
Proof. induction a; simpl; congruence. Qed.

Lemma append_empty_r (a : string) : a ++ EmptyString = a.
Proof. induction a; simpl; congruence. Qed.

Lemma block_of_cons_plain (line : string) (body : list string) :
  plain_line line = true ->
  block_of (line :: body) = (line ++ String newline EmptyString) ++ block_of body.
Proof.
  unfold block_of. simpl. intros ->. simpl. rewrite append_assoc. reflexivity.
Qed.

Lemma block_of_cons_marker (line : string) (body : list string) :
  plain_line line = false -> block_of (line :: body) = block_of body.
Proof. unfold block_of. simpl. intros ->. reflexivity. Qed.

(** Inside a vertex section every line goes to stream 0 or is dropped. *)
Lemma parse_lines_vertex_body (body : list string) (v f : string) :
  Forall starts_no_section body ->
  parse_lines body {| ss := [v; f]; type := VERTEX |} =
  Ok {| ss := [v ++ block_of body; f]; type := VERTEX |}.
Proof.
  intros H. revert v. induction H as [|line body Hl _ IH]; intros v.
  - unfold block_of. simpl. rewrite append_empty_r. reflexivity.
  - simpl. destruct (plain_line line) eqn:P.
    + rewrite parse_line_plain by assumption. simpl.
      rewrite IH, block_of_cons_plain, append_assoc by assumption. reflexivity.
    + rewrite parse_line_stageless by assumption. simpl.
      rewrite IH, block_of_cons_marker by assumption. reflexivity.
Qed.

(** Inside a fragment section every line goes to stream 1 or is dropped. *)
Lemma parse_lines_fragment_body (body : list string) (v f : string) :
  Forall starts_no_section body ->
  parse_lines body {| ss := [v; f]; type := FRAGMENT |} =
  Ok {| ss := [v; f ++ block_of body]; type := FRAGMENT |}.
Proof.
  intros H. revert f. induction H as [|line body Hl _ IH]; intros f.
  - unfold block_of. simpl. rewrite append_empty_r. reflexivity.
  - simpl. destruct (plain_line line) eqn:P.
    + rewrite parse_line_plain by assumption. simpl.
      rewrite IH, block_of_cons_plain, append_assoc by assumption. reflexivity.
    + rewrite parse_line_stageless by assumption. simpl.
      rewrite IH, block_of_cons_marker by assumption. reflexivity.
Qed.

(** A section without marker-token lines contributes all its lines. *)
Lemma block_of_plain (body : list string) :
  Forall (fun line => ~ occurs_in "#shader" line) body ->
  block_of body = unlines body.
Proof.
  unfold block_of. induction 1 as [|line body Hl _ IH]; simpl; [reflexivity|].
  apply find_none in Hl. unfold plain_line at 1. rewrite Hl. simpl.
  rewrite IH. reflexivity.
Qed.

Lemma ParseShader_example :
  ParseShader example_fs "res/shaders/Basic.shader" = Ok example_source.
Proof. vm_compute. reflexivity. Qed.

(** ** Facts about runs *)

Section Runs.

Context {R : Type}.

Lemma runs_observe (t u : itree glE R) (tr : list obs) (r : R) :
  observe t = observe u -> runs t tr r -> runs u tr r.
Proof.
  intros E H. destruct H as [t r H | t v tr r H H' | t X e k x tr r H H'].
  - apply runs_ret. congruence.
  - apply runs_tau with v; congruence.
  - apply runs_vis with k; congruence.
Qed.

Lemma VisF_inj {X : Type} (e e' : glE X) (k k' : X -> itree glE R) :
  @VisF glE R (itree glE R) X e k = VisF e' k' -> e = e' /\ k = k'.
Proof.
  intros H. inversion H as [[He Hk]].
  apply Eqdep.EqdepTheory.inj_pair2 in He, Hk. auto.
Qed.

Lemma runs_Ret (x : R) (tr : list obs) (r : R) :
  runs (Ret x) tr r <-> tr = [] /\ r = x.
Proof.
  split.
  - intros H. inversion H as [t r' E | t u tr' r' E _ | t X e k y tr' r' E _];
      subst; cbn in E; try discriminate.
    injection E as ->. auto.
  - intros [-> ->]. apply runs_ret. reflexivity.
Qed.

Lemma runs_Tau (t : itree glE R) (tr : list obs) (r : R) :
  runs (Tau t) tr r <-> runs t tr r.
Proof.
  split.
  - intros H. inversion H as [u r' E | u v tr' r' E H' | u X e k y tr' r' E _];
      subst; cbn in E; try discriminate.
    injection E as ->. exact H'.
  - intros H. apply runs_tau with t; [reflexivity | exact H].
Qed.

Lemma runs_Vis {X : Type} (e : glE X) (k : X -> itree glE R)
      (tr : list obs) (r : R) :
  runs (Vis e k) tr r <->
  exists x tr', tr = Obs e x :: tr' /\ runs (k x) tr' r.
Proof.
  split.
  - intros H. inversion H as [u r' E | u v tr' r' E _ | u Y e' k' y tr' r' E H'];
      subst; cbn in E; try discriminate.
    inversion E as [[EX]]. subst Y.
    apply VisF_inj in E as [<- <-]. eauto.
  - intros (x & tr' & -> & H). apply runs_vis with k; [reflexivity | exact H].
Qed.

End Runs.

Lemma runs_bind_intro {R S : Type} (t : itree glE R) (k : R -> itree glE S)
      (tr1 tr2 : list obs) (x : R) (r : S) :
  runs t tr1 x -> runs (k x) tr2 r -> runs (ITree.bind t k) (tr1 ++ tr2) r.
Proof.
  intros H1 H2.
  induction H1 as [t x E | t u tr x E _ IH | t X e k' y tr x E _ IH].
  - apply runs_observe with (k x); [|exact H2].
    rewrite observe_bind, E. reflexivity.
  - apply runs_tau with (ITree.bind u k); [|exact (IH H2)].
    rewrite observe_bind, E. reflexivity.
  - simpl. apply runs_vis with (fun z => ITree.bind (k' z) k); [|exact (IH H2)].
    rewrite observe_bind, E. reflexivity.
Qed.

Lemma runs_bind_split {R S : Type} (w : itree glE S) (tr : list obs) (r : S) :
  runs w tr r ->
  forall (t : itree glE R) (k : R -> itree glE S),
    observe w = observe (ITree.bind t k) ->
    exists x tr1 tr2, runs t tr1 x /\ runs (k x) tr2 r /\ tr = (tr1 ++ tr2)%list.
Proof.
  induction 1 as [w r E | w u tr r E H IH | w X e kw y tr r E H IH];
    intros t k Eb; rewrite observe_bind in Eb;
    destruct (observe t) as [x | t' | Y e' k'] eqn:Et; cbn in Eb;
    try congruence.
  - exists x, [], []. repeat split.
    + apply runs_ret. exact Et.
    + apply runs_ret. congruence.
  - exists x, [], tr. repeat split.
    + apply runs_ret. exact Et.
    + apply runs_tau with u; [congruence | exact H].
  - rewrite E in Eb. injection Eb as ->.
    destruct (IH t' k eq_refl) as (x & tr1 & tr2 & Ht & Hk & ->).
    exists x, tr1, tr2. repeat split; [|exact Hk].
    apply runs_tau with t'; assumption.
  - exists x, [], (Obs e y :: tr). repeat split.
    + apply runs_ret. exact Et.
    + apply runs_vis with kw; [congruence | exact H].
  - rewrite E in Eb. inversion Eb as [[EX]]. subst Y.
    apply VisF_inj in Eb as [<- ->].
    destruct (IH (k' y) k eq_refl) as (x & tr1 & tr2 & Ht & Hk & ->).
    exists x, (Obs e y :: tr1), tr2. repeat split; [|exact Hk].
    apply runs_vis with k'; assumption.
Qed.

(** A run of [t ;; k] is a run of [t] followed by a run of [k]. *)
Lemma runs_bind {R S : Type} (t : itree glE R) (k : R -> itree glE S)
      (tr : list obs) (r : S) :
  runs (ITree.bind t k) tr r <->
  exists x tr1 tr2, runs t tr1 x /\ runs (k x) tr2 r /\ tr = (tr1 ++ tr2)%list.
Proof.
  split.
  - intros H. apply (runs_bind_split _ _ _ H t k eq_refl).
  - intros (x & tr1 & tr2 & H1 & H2 & ->). eapply runs_bind_intro; eassumption.
Qed.

(** A call returns what the library answers. *)
Lemma runs_call {X : Type} (e : glE X) (tr : list obs) (x : X) :
  runs (call e) tr x <-> tr = [Obs e x].
Proof.
  unfold call, ITree.trigger. rewrite runs_Vis. split.
  - intros (y & tr' & -> & H). apply runs_Ret in H as [-> ->]. reflexivity.
  - intros ->. exists x, []. split; [reflexivity|]. apply runs_Ret. auto.
Qed.

(** A call followed by the rest of the program. *)
Lemma runs_call_bind {X R : Type} (e : glE X) (k : X -> itree glE R)
      (tr : list obs) (r : R) :
  runs (ITree.bind (call e) k) tr r <->
  exists x tr', tr = Obs e x :: tr' /\ runs (k x) tr' r.
Proof.
  rewrite runs_bind. split.
  - intros (x & tr1 & tr2 & H1 & H2 & ->). apply runs_call in H1 as ->.
    exists x, tr2. auto.
  - intros (x & tr' & -> & H). exists x, [Obs e x], tr'.
    repeat split; [apply runs_call; reflexivity | exact H].
Qed.

(** One unfolding of a loop. *)
Lemma runs_iter {I R : Type} (body : I -> itree glE (I + R)) (i : I)
      (tr : list obs) (r : R) :
  runs (ITree.iter body i) tr r <->
  exists lr tr1 tr2,
    runs (body i) tr1 lr /\ tr = (tr1 ++ tr2)%list /\
    match lr with
    | inl i' => runs (ITree.iter body i') tr2 r
    | inr r' => tr2 = [] /\ r = r'
    end.
Proof.
  pose proof (observing_observe (unfold_aloop_ body i)) as E.
  split.
  - intros H. apply (runs_observe _ _ _ _ E) in H.
    apply runs_bind in H as (lr & tr1 & tr2 & H1 & H2 & ->).
    exists lr, tr1, tr2. repeat split; [exact H1|].
    destruct lr as [i' | r']; cbn in H2.
    + apply (proj1 (runs_Tau _ _ _)) in H2. exact H2.
    + apply (proj1 (runs_Ret _ _ _)) in H2. exact H2.
  - intros (lr & tr1 & tr2 & H1 & -> & H2).
    apply (runs_observe _ _ _ _ (eq_sym E)).
    apply runs_bind. exists lr, tr1, tr2. repeat split; [exact H1|].
    destruct lr as [i' | r']; cbn.
    + apply runs_Tau. exact H2.
    + apply runs_Ret. exact H2.
Qed.

(** ** Facts about unfinished executions *)

Lemma trace_observe {R : Type} (t u : itree glE R) (tr : list obs) :
  observe t = observe u -> trace_of t tr -> trace_of u tr.
Proof.
  intros E H. destruct H as [t | t v tr H H' | t X e k x tr H H'].
  - apply trace_nil.
  - apply trace_tau with v; congruence.
  - apply trace_vis with k; congruence.
Qed.

Lemma runs_trace {R : Type} (t : itree glE R) (tr : list obs) (r : R) :
  runs t tr r -> trace_of t tr.
Proof.
  induction 1 as [t r E | t u tr r E _ IH | t X e k x tr r E _ IH].
  - apply trace_nil.
  - apply trace_tau with u; assumption.
  - apply trace_vis with k; assumption.
Qed.

Lemma trace_Ret {R : Type} (x : R) (tr : list obs) :
  trace_of (Ret x : itree glE R) tr <-> tr = [].
Proof.
  split.
  - intros H. inversion H as [t | t u tr' E _ | t X e k y tr' E _];
      subst; try (cbn in E; discriminate). reflexivity.
  - intros ->. apply trace_nil.
Qed.

Lemma trace_Tau {R : Type} (t : itree glE R) (tr : list obs) :
  trace_of (Tau t) tr <-> trace_of t tr.
Proof.
  split.
  - intros H. inversion H as [u | u v tr' E H' | u X e k y tr' E _];
      subst; try (cbn in E; discriminate).
    + apply trace_nil.
    + cbn in E. injection E as ->. exact H'.
  - intros H. apply trace_tau with t; [reflexivity | exact H].
Qed.

Lemma trace_Vis {X R : Type} (e : glE X) (k : X -> itree glE R) (tr : list obs) :
  trace_of (Vis e k) tr <->
  tr = [] \/ exists x tr', tr = Obs e x :: tr' /\ trace_of (k x) tr'.
Proof.
  split.
  - intros H. inversion H as [u | u v tr' E _ | u Y e' k' y tr' E H'];
      subst; try (cbn in E; discriminate).
    + left. reflexivity.
    + right. cbn in E. inversion E as [[EX]]. subst Y.
      apply VisF_inj in E as [<- <-]. eauto.
  - intros [-> | (x & tr' & -> & H)].
    + apply trace_nil.
    + apply trace_vis with k; [reflexivity | exact H].
Qed.

Lemma trace_bind_split {R S : Type} (w : itree glE S) (tr : list obs) :
  trace_of w tr ->
  forall (t : itree glE R) (k : R -> itree glE S),
    observe w = observe (ITree.bind t k) ->
    trace_of t tr \/
    exists x tr1 tr2, runs t tr1 x /\ trace_of (k x) tr2 /\ tr = (tr1 ++ tr2)%list.
Proof.
  induction 1 as [w | w u tr E H IH | w X e kw y tr E H IH]; intros t k Eb.
  - left. apply trace_nil.
  - rewrite observe_bind in Eb.
    destruct (observe t) as [x | t' | Y e' k'] eqn:Et; cbn in Eb; try congruence.
    + right. exists x, [], tr. repeat split.
      * apply runs_ret. exact Et.
      * apply trace_tau with u; [congruence | exact H].
    + rewrite E in Eb. injection Eb as ->.
      destruct (IH t' k eq_refl) as [Ht | (x & tr1 & tr2 & Ht & Hk & ->)].
      * left. apply trace_tau with t'; assumption.
      * right. exists x, tr1, tr2. repeat split; [|exact Hk].
        apply runs_tau with t'; assumption.
  - rewrite observe_bind in Eb.
    destruct (observe t) as [x | t' | Y e' k'] eqn:Et; cbn in Eb; try congruence.
    + right. exists x, [], (Obs e y :: tr). repeat split.
      * apply runs_ret. exact Et.
      * apply trace_vis with kw; [congruence | exact H].
    + rewrite E in Eb. inversion Eb as [[EX]]. subst Y.
      apply VisF_inj in Eb as [<- ->].
      destruct (IH (k' y) k eq_refl) as [Ht | (x & tr1 & tr2 & Ht & Hk & ->)].
      * left. apply trace_vis with k'; assumption.
      * right. exists x, (Obs e y :: tr1), tr2. repeat split; [|exact Hk].
        apply runs_vis with k'; assumption.
Qed.

Lemma trace_bind_left {R S : Type} (t : itree glE R) (k : R -> itree glE S)
      (tr : list obs) :
  trace_of t tr -> trace_of (ITree.bind t k) tr.
Proof.
  induction 1 as [t | t u tr E _ IH | t X e k' y tr E _ IH].
  - apply trace_nil.
  - apply trace_tau with (ITree.bind u k); [|exact IH].
    rewrite observe_bind, E. reflexivity.
  - apply trace_vis with (fun z => ITree.bind (k' z) k); [|exact IH].
    rewrite observe_bind, E. reflexivity.
Qed.

Lemma trace_bind_right {R S : Type} (t : itree glE R) (k : R -> itree glE S)
      (tr1 tr2 : list obs) (x : R) :
  runs t tr1 x -> trace_of (k x) tr2 -> trace_of (ITree.bind t k) (tr1 ++ tr2).
Proof.
  intros H1 H2.
  induction H1 as [t x E | t u tr x E _ IH | t X e k' y tr x E _ IH].
  - apply trace_observe with (k x); [|exact H2].
    rewrite observe_bind, E. reflexivity.
  - apply trace_tau with (ITree.bind u k); [|exact (IH H2)].
    rewrite observe_bind, E. reflexivity.
  - simpl. apply trace_vis with (fun z => ITree.bind (k' z) k); [|exact (IH H2)].
    rewrite observe_bind, E. reflexivity.
Qed.

(** An execution of [t ;; k] is still inside [t], or has finished [t] and
    is inside [k]. *)
Lemma trace_bind {R S : Type} (t : itree glE R) (k : R -> itree glE S)
      (tr : list obs) :
  trace_of (ITree.bind t k) tr <->
  trace_of t tr \/
  exists x tr1 tr2, runs t tr1 x /\ trace_of (k x) tr2 /\ tr = (tr1 ++ tr2)%list.
Proof.
  split.
  - intros H. apply (trace_bind_split _ _ H t k eq_refl).
  - intros [H | (x & tr1 & tr2 & H1 & H2 & ->)].
    + apply trace_bind_left. exact H.
    + eapply trace_bind_right; eassumption.
Qed.

Lemma trace_call {X : Type} (e : glE X) (tr : list obs) :
  trace_of (call e) tr <-> tr = [] \/ exists x, tr = [Obs e x].
Proof.
  unfold call, ITree.trigger. rewrite trace_Vis. split.
  - intros [-> | (x & tr' & -> & H)]; [left; reflexivity|].
    apply trace_Ret in H as ->. right. exists x. reflexivity.
  - intros [-> | (x & ->)]; [left; reflexivity|].
    right. exists x, []. split; [reflexivity|]. apply trace_nil.
Qed.

Lemma trace_call_bind {X R : Type} (e : glE X) (k : X -> itree glE R)
      (tr : list obs) :
  trace_of (ITree.bind (call e) k) tr <->
  tr = [] \/ exists x tr', tr = Obs e x :: tr' /\ trace_of (k x) tr'.
Proof.
  rewrite trace_bind. split.
  - intros [H | (x & tr1 & tr2 & H1 & H2 & ->)].
    + apply trace_call in H as [-> | (x & ->)]; [left; reflexivity|].
      right. exists x, []. split; [reflexivity | apply trace_nil].
    + apply runs_call in H1 as ->. right. exists x, tr2. auto.
  - intros [-> | (x & tr' & -> & H)].
    + left. apply trace_nil.
    + right. exists x, [Obs e x], tr'.
      repeat split; [apply runs_call; reflexivity | exact H].
Qed.

Lemma trace_iter {I R : Type} (body : I -> itree glE (I + R)) (i : I)
      (tr : list obs) :
  trace_of (ITree.iter body i) tr <->
  trace_of (body i) tr \/
  exists lr tr1 tr2,
    runs (body i) tr1 lr /\ tr = (tr1 ++ tr2)%list /\
    match lr with
    | inl i' => trace_of (ITree.iter body i') tr2
    | inr _ => tr2 = []
    end.
Proof.
  pose proof (observing_observe (unfold_aloop_ body i)) as E.
  split.
  - intros H. apply (trace_observe _ _ _ E) in H.
    apply trace_bind in H as [H | (lr & tr1 & tr2 & H1 & H2 & ->)];
      [left; exact H|].
    right. exists lr, tr1, tr2. repeat split; [exact H1|].
    destruct lr as [i' | r']; cbn in H2.
    + apply (proj1 (trace_Tau _ _)) in H2. exact H2.
    + apply (proj1 (trace_Ret _ _)) in H2. exact H2.
  - intros H. apply (trace_observe _ _ _ (eq_sym E)). apply trace_bind.
    destruct H as [H | (lr & tr1 & tr2 & H1 & -> & H2)]; [left; exact H|].
    right. exists lr, tr1, tr2. repeat split; [exact H1|].
    destruct lr as [i' | r']; cbn.
    + apply trace_Tau. exact H2.
    + apply trace_Ret. exact H2.
Qed.

(** *** Properties of every call *)

Lemma always_Ret {R : Type} (P : obs -> Prop) (x : R) :
  always P (Ret x : itree glE R).
Proof. intros tr H. apply trace_Ret in H as ->. constructor. Qed.

Lemma always_call {X : Type} (P : obs -> Prop) (e : glE X) :
  (forall x, P (Obs e x)) -> always P (call e).
Proof.
  intros HP tr H. apply trace_call in H as [-> | (x & ->)]; repeat constructor.
  apply HP.
Qed.

Lemma runs_always {R : Type} (P : obs -> Prop) (t : itree glE R)
      (tr : list obs) (r : R) :
  always P t -> runs t tr r -> Forall P tr.
Proof. intros H Hr. apply H. eapply runs_trace; eassumption. Qed.

Lemma always_bind {R S : Type} (P : obs -> Prop) (t : itree glE R)
      (k : R -> itree glE S) :
  always P t -> (forall x, always P (k x)) -> always P (ITree.bind t k).
Proof.
  intros Ht Hk tr H.
  apply trace_bind in H as [H | (x & tr1 & tr2 & H1 & H2 & ->)].
  - apply Ht. exact H.
  - apply Forall_app. split.
    + eapply runs_always; eassumption.
    + eapply Hk; eassumption.
Qed.

(** A loop whose every iteration makes at least one call. *)
Lemma always_iter_len {I R : Type} (P : obs -> Prop)
      (body : I -> itree glE (I + R)) :
  (forall i, always P (body i)) ->
  (forall i i' tr, runs (body i) tr (inl i') -> tr <> []) ->
  forall (len : nat) (i : I) (tr : list obs),
    (List.length tr <= len)%nat -> trace_of (ITree.iter body i) tr -> Forall P tr.
Proof.
  intros Hb Hne. induction len as [|len IH]; intros i tr Hlen H.
  - destruct tr; [constructor | simpl in Hlen; lia].
  - apply trace_iter in H as [H | (lr & tr1 & tr2 & H1 & -> & H2)].
    + eapply Hb; eassumption.
    + apply Forall_app. split; [eapply runs_always; [apply Hb | eassumption]|].
      destruct lr as [i' | r']; [|subst tr2; constructor].
      apply (IH i'); [|exact H2].
      apply Hne in H1. destruct tr1; [contradiction|].
      rewrite length_app in Hlen. simpl in Hlen. lia.
Qed.

Lemma always_iter {I R : Type} (P : obs -> Prop)
      (body : I -> itree glE (I + R)) (i : I) :
  (forall i, always P (body i)) ->
  (forall i i' tr, runs (body i) tr (inl i') -> tr <> []) ->
  always P (ITree.iter body i).
Proof.
  intros Hb Hne tr H.
  apply (always_iter_len P body Hb Hne (List.length tr) i tr); [lia | exact H].
Qed.

(** ** Facts about CompileShader, CreateShader and the render loop *)

Ltac answer H :=
  apply (proj1 (runs_call_bind _ _ _ _)) in H;
  let x := fresh "x" in
  let tr := fresh "tr" in
  destruct H as (x & tr & -> & H); cbn beta in H;
  try match type of x with unit => destruct x end.

Ltac perform :=
  apply (proj2 (runs_call_bind _ _ _ _));
  eexists _, _; split; [reflexivity|]; cbn beta.

Lemma stage_name_eq (type : GLenum) :
  (if GLenum_eqb type GL_VERTEX_SHADER then "vertex" else "fragment")
  = stage_name type.
Proof. destruct type; reflexivity. Qed.

Lemma CompileShader_runs (type : GLenum) (source : string)
      (tr : list obs) (r : Z) :
  runs (CompileShader type source) tr r <->
  exists id result,
    (result = GL_FALSE /\ r = 0 /\
     exists length log,
       tr = (compile_calls type source id result
             ++ failure_calls type id length log)%list)
    \/ (result <> GL_FALSE /\ r = id /\ tr = compile_calls type source id result).
Proof.
  unfold CompileShader. rewrite stage_name_eq. split.
  - intros H. do 4 answer H. rename x into id, x0 into result.
    exists id, result.
    destruct (Z.eqb_spec result GL_FALSE) as [E | E].
    + left. do 6 answer H. apply (proj1 (runs_Ret _ _ _)) in H as [-> ->].
      repeat split; try assumption. eexists _, _. reflexivity.
    + right. apply (proj1 (runs_Ret _ _ _)) in H as [-> ->]. auto.
  - intros (id & result & [(E & -> & length & log & ->) | (E & -> & ->)]);
      cbn [compile_calls failure_calls app]; do 4 perform.
    + subst result. cbn. do 6 perform. apply runs_Ret. auto.
    + destruct (Z.eqb_spec result GL_FALSE) as [E' | _]; [contradiction|].
      apply runs_Ret. auto.
Qed.

Lemma CreateShader_runs (vertexShader fragmentShader : string)
      (tr : list obs) (r : Z) :
  runs (CreateShader vertexShader fragmentShader) tr r <->
  exists program vs fs trv trf,
    runs (CompileShader GL_VERTEX_SHADER vertexShader) trv vs /\
    runs (CompileShader GL_FRAGMENT_SHADER fragmentShader) trf fs /\
    r = program /\
    tr = (Obs glCreateProgram program :: trv ++ trf ++ link_calls program vs fs)%list.
Proof.
  unfold CreateShader. split.
  - intros H. answer H. rename x into program.
    apply (proj1 (runs_bind _ _ _ _)) in H as (vs & trv & tr1 & Hv & H & ->).
    apply (proj1 (runs_bind _ _ _ _)) in H as (fs & trf & tr2 & Hf & H & ->).
    do 6 answer H. apply (proj1 (runs_Ret _ _ _)) in H as [-> ->].
    exists program, vs, fs, trv, trf. auto.
  - intros (program & vs & fs & trv & trf & Hv & Hf & -> & ->).
    perform.
    apply runs_bind. exists vs, trv, (trf ++ link_calls program vs fs)%list.
    repeat split; [exact Hv|].
    apply runs_bind. exists fs, trf, (link_calls program vs fs).
    repeat split; [exact Hf|].
    cbn [link_calls]. do 6 perform. apply runs_Ret. auto.
Qed.

Lemma render_frame_runs (window : GLFWwindow) (tr : list obs) (u : unit) :
  runs (render_frame window) tr u <->
  (Obs (glfwWindowShouldClose window) 0 :: tr) = frame_calls window.
Proof.
  unfold render_frame, frame_calls. split.
  - intros H. do 3 answer H. apply (proj1 (runs_call _ _ _)) in H as ->.
    destruct u. reflexivity.
  - intros E. injection E as ->. do 3 perform. apply runs_call. destruct u.
    reflexivity.
Qed.

Lemma render_loop_frames (window : GLFWwindow) (n : nat) (close : Z) :
  close <> 0 ->
  runs (render_loop window)
       (frames window n ++ [Obs (glfwWindowShouldClose window) close]) tt.
Proof.
  intros Hc. unfold render_loop. induction n as [|n IH]; apply runs_iter.
  - exists (inr tt), [Obs (glfwWindowShouldClose window) close], [].
    repeat split. perform.
    destruct (Z.eqb_spec close 0); [contradiction|]. apply runs_Ret. auto.
  - exists (inl tt), (frame_calls window),
      (frames window n ++ [Obs (glfwWindowShouldClose window) close])%list.
    repeat split; [|exact IH].
    unfold frame_calls. perform. cbn.
    apply runs_bind. eexists tt, _, []. repeat split.
    + apply render_frame_runs. reflexivity.
    + apply runs_Ret. auto.
    + rewrite app_nil_r. reflexivity.
Qed.

Lemma render_loop_runs_len (window : GLFWwindow) (len : nat) :
  forall (tr : list obs) (u : unit),
    (List.length tr <= len)%nat ->
    runs (render_loop window) tr u ->
    exists n close,
      close <> 0 /\
      tr = (frames window n ++ [Obs (glfwWindowShouldClose window) close])%list.
Proof.
  unfold render_loop. induction len as [|len IH]; intros tr u Hlen H;
    apply (proj1 (runs_iter _ _ _ _)) in H
      as (lr & tr1 & tr2 & Hbody & -> & Hrest);
    answer Hbody; rename x into close;
    destruct (Z.eqb_spec close 0) as [-> | Hc].
  - simpl in Hlen. lia.
  - simpl in Hlen. lia.
  - apply (proj1 (runs_bind _ _ _ _)) in Hbody
      as (v & trf & tr3 & Hf & Hr & ->).
    apply (proj1 (runs_Ret _ _ _)) in Hr as [-> ->].
    apply render_frame_runs in Hf.
    destruct (IH tr2 u) as (n & close & Hc & ->).
    + simpl in Hlen. rewrite !length_app in Hlen. lia.
    + exact Hrest.
    + exists (S n), close. split; [exact Hc|].
      rewrite app_nil_r, Hf.
      change (frames window (S n)) with (frame_calls window ++ frames window n)%list.
      rewrite <- app_assoc. reflexivity.
  - apply (proj1 (runs_Ret _ _ _)) in Hbody as [-> ->].
    destruct Hrest as [-> _]. exists O, close. auto.
Qed.

(** The render loop ends exactly after some number of frames followed by a
    granted close request. *)
Lemma render_loop_runs (window : GLFWwindow) (tr : list obs) (u : unit) :
  runs (render_loop window) tr u <->
  exists n close,
    close <> 0 /\
    tr = (frames window n ++ [Obs (glfwWindowShouldClose window) close])%list.
Proof.
  split.
  - apply (render_loop_runs_len window (List.length tr)). lia.
  - intros (n & close & Hc & ->). destruct u.
    apply render_loop_frames. exact Hc.
Qed.

Lemma render_and_shutdown_runs (window : GLFWwindow) (shader : Z)
      (tr : list obs) (r : Z) :
  runs (render_and_shutdown window shader) tr r <->
  exists n close,
    close <> 0 /\ r = 0 /\
    tr = (frames window n ++ closing_calls window shader close)%list.
Proof.
  unfold render_and_shutdown, closing_calls. split.
  - intros H.
    apply (proj1 (runs_bind _ _ _ _)) in H as (u & trl & tr' & Hl & H & ->).
    apply render_loop_runs in Hl as (n & close & Hc & ->).
    do 2 answer H. apply (proj1 (runs_Ret _ _ _)) in H as [-> ->].
    exists n, close. rewrite <- app_assoc. auto.
  - intros (n & close & Hc & -> & ->).
    apply runs_bind.
    exists tt, (frames window n ++ [Obs (glfwWindowShouldClose window) close])%list,
      [Obs (glDeleteProgram shader) tt; Obs glfwTerminate tt].
    repeat split.
    + apply render_loop_runs. eauto.
    + do 2 perform. apply runs_Ret. auto.
    + rewrite <- app_assoc. reflexivity.
Qed.

Lemma draw_with_runs (window : GLFWwindow) (source : ShaderProgramSource)
      (tr : list obs) (r : Z) :
  runs (draw_with window source) tr r <->
  exists shader trc trl,
    runs (CreateShader (vertexSource source) (fragmentSource source)) trc shader /\
    runs (render_and_shutdown window shader) trl r /\
    tr = (trc ++ Obs (glUseProgram shader) tt :: trl)%list.
Proof.
  unfold draw_with. split.
  - intros H.
    apply (proj1 (runs_bind _ _ _ _)) in H as (shader & trc & tr' & Hc & H & ->).
    answer H. exists shader, trc, tr. auto.
  - intros (shader & trc & trl & Hc & Hl & ->).
    apply runs_bind. exists shader, trc, (Obs (glUseProgram shader) tt :: trl).
    repeat split; [exact Hc|]. perform. exact Hl.
Qed.

Lemma upload_geometry_runs (pf : platform) (tr : list obs) (u : unit) :
  runs (upload_geometry pf) tr u <->
  exists buffer indexBufferObject, tr = upload_calls pf buffer indexBufferObject.
Proof.
  unfold upload_geometry, upload_calls. split.
  - intros H. do 7 answer H. apply (proj1 (runs_call _ _ _)) in H as ->.
    destruct u. eexists _, _. reflexivity.
  - intros (buffer & indexBufferObject & ->). do 7 perform.
    apply runs_call. destruct u. reflexivity.
Qed.

(** The three ways [main] can end. *)
Lemma main_runs (pf : platform) (fs : filesystem) (tr : list obs) (r : Z) :
  runs (main pf fs) tr r <->
  (tr = [Obs glfwInit 0] /\ r = -1)
  \/ (exists ok,
        ok <> 0 /\ r = -1 /\
        tr = [ Obs glfwInit ok;
               Obs (glfwCreateWindow 640 480 "Hello World" 0 0) None;
               Obs glfwTerminate tt ])
  \/ (exists ok window status version buffer indexBufferObject source trd,
        ok <> 0 /\
        ParseShader fs "res/shaders/Basic.shader" = Ok source /\
        runs (draw_with window source) trd r /\
        tr = (startup_calls ok window status version
              ++ upload_calls pf buffer indexBufferObject ++ trd)%list).
Proof.
  unfold main. split.
  - intros H. answer H. rename x into ok.
    destruct (Z.eqb_spec ok 0) as [-> | Hok].
    { left. apply (proj1 (runs_Ret _ _ _)) in H as [-> ->]. auto. }
    right. answer H. destruct x as [window|].
    2:{ left. answer H. apply (proj1 (runs_Ret _ _ _)) in H as [-> ->].
        exists ok. auto. }
    right. do 2 answer H. rename x into status.
    apply (proj1 (runs_bind _ _ _ _)) in H as (u & tre & tr' & He & H & ->).
    do 2 answer H. rename x into version.
    apply (proj1 (runs_bind _ _ _ _)) in H as (u' & tru & tr' & Hu & H & ->).
    apply upload_geometry_runs in Hu as (buffer & ibo & ->).
    destruct (ParseShader fs "res/shaders/Basic.shader") as [source | i] eqn:P.
    2:{ answer H. destruct x. }
    exists ok, window, status, version, buffer, ibo, source, tr'.
    repeat split; try assumption.
    unfold startup_calls. cbn [app]. do 4 f_equal.
    rewrite <- app_assoc. f_equal. destruct u.
    destruct (Z.eqb_spec status GLEW_OK).
    + apply (proj1 (runs_Ret _ _ _)) in He as [-> _]. reflexivity.
    + apply (proj1 (runs_call _ _ _)) in He as ->. reflexivity.
  - intros [[-> ->] | [(ok & Hok & -> & ->) |
      (ok & window & status & version & buffer & ibo & source & trd
       & Hok & P & Hd & ->)]].
    + perform. cbn. apply runs_Ret. auto.
    + perform. destruct (Z.eqb_spec ok 0); [contradiction|].
      do 2 perform. apply runs_Ret. auto.
    + unfold startup_calls. cbn [app]. perform.
      destruct (Z.eqb_spec ok 0); [contradiction|].
      do 3 perform. rewrite <- app_assoc.
      apply runs_bind. eexists tt, _, _. repeat split.
      * destruct (Z.eqb_spec status GLEW_OK).
        -- apply runs_Ret. split; reflexivity.
        -- apply runs_call. reflexivity.
      * cbn [app]. do 2 perform.
        apply runs_bind. eexists tt, _, _. repeat split.
        -- apply upload_geometry_runs. eauto.
        -- rewrite P. exact Hd.
Qed.

(** *** Unfinished executions of [main] *)

Ltac call_ok :=
  let x := fresh "x" in
  intros x;
  first [ reflexivity
        | split; [reflexivity | discriminate]
        | destruct x; split; [reflexivity | intros _; reflexivity] ].

Ltac always_step :=
  lazymatch goal with
  | |- always _ (Ret _) => apply always_Ret
  | |- always _ (call _) => apply always_call; call_ok
  | |- always _ (ITree.bind _ _) => apply always_bind; [|intros]
  | |- always _ (if ?c then _ else _) => destruct c
  end.

Lemma upload_geometry_no_draw (pf : platform) :
  always (fun o => is_draw o = false) (upload_geometry pf).
Proof. unfold upload_geometry. repeat always_step. Qed.

Lemma CompileShader_drawing (type : GLenum) (source : string) :
  always drawing_call (CompileShader type source).
Proof. unfold CompileShader. repeat always_step. Qed.

Lemma CreateShader_drawing (vertexShader fragmentShader : string) :
  always drawing_call (CreateShader vertexShader fragmentShader).
Proof.
  unfold CreateShader. repeat (always_step || apply CompileShader_drawing).
Qed.

Lemma render_frame_drawing (window : GLFWwindow) :
  always drawing_call (render_frame window).
Proof. unfold render_frame. repeat always_step. Qed.

Lemma render_loop_drawing (window : GLFWwindow) :
  always drawing_call (render_loop window).
Proof.
  unfold render_loop. apply always_iter.
  - intros _. repeat (always_step || apply render_frame_drawing).
  - intros _ i' tr H. answer H. discriminate.
Qed.

Lemma draw_with_drawing (window : GLFWwindow) (source : ShaderProgramSource) :
  always drawing_call (draw_with window source).
Proof.
  unfold draw_with, render_and_shutdown.
  repeat (always_step || apply CreateShader_drawing || apply render_loop_drawing).
Qed.

Ltac glimpse H :=
  apply (proj1 (trace_call_bind _ _ _)) in H;
  let x := fresh "x" in
  let tr := fresh "tr" in
  destruct H as [-> | (x & tr & -> & H)];
  [ left; repeat constructor
  | cbn beta in H; try match type of x with unit => destruct x end ].

Lemma main_traces (pf : platform) (fs : filesystem) (tr : list obs) :
  trace_of (main pf fs) tr ->
  Forall (fun o => is_draw o = false) tr
  \/ exists ok window status version buffer indexBufferObject source trd,
       trace_of (draw_with window source) trd /\
       tr = (startup_calls ok window status version
             ++ upload_calls pf buffer indexBufferObject ++ trd)%list.
Proof.
  unfold main. intros H. glimpse H. rename x into ok.
  destruct (ok =? 0).
  { apply (proj1 (trace_Ret _ _)) in H as ->. left. repeat constructor. }
  glimpse H. destruct x as [window|].
  2:{ glimpse H. apply (proj1 (trace_Ret _ _)) in H as ->.
      left. repeat constructor. }
  do 2 glimpse H. rename x into status.
  assert (Hs : forall rest,
             (Obs glfwInit ok
              :: Obs (glfwCreateWindow 640 480 "Hello World" 0 0) (Some window)
              :: Obs (glfwMakeContextCurrent window) tt
              :: Obs glewInit status
              :: (if status =? GLEW_OK then [] else [Obs (cout ("ERROR" ++ endl)) tt])
              ++ rest)%list
             = ([Obs glfwInit ok;
                 Obs (glfwCreateWindow 640 480 "Hello World" 0 0) (Some window);
                 Obs (glfwMakeContextCurrent window) tt;
                 Obs glewInit status]
                ++ (if status =? GLEW_OK then [] else [Obs (cout ("ERROR" ++ endl)) tt])
                ++ rest)%list) by reflexivity.
  apply (proj1 (trace_bind _ _ _)) in H
    as [H | (u & tre & tr' & He & H & ->)].
  { left. repeat constructor.
    destruct (status =? GLEW_OK).
    - apply (proj1 (trace_Ret _ _)) in H as ->. constructor.
    - apply (proj1 (trace_call _ _)) in H as [-> | (x & ->)]; repeat constructor. }
  assert (tre = if status =? GLEW_OK then [] else [Obs (cout ("ERROR" ++ endl)) tt])
    as ->.
  { destruct u. destruct (status =? GLEW_OK).
    - apply (proj1 (runs_Ret _ _ _)) in He as [-> _]. reflexivity.
    - apply (proj1 (runs_call _ _ _)) in He as ->. reflexivity. }
  assert (Hq : Forall (fun o => is_draw o = false)
                 (if status =? GLEW_OK then [] else [Obs (cout ("ERROR" ++ endl)) tt])).
  { destruct (status =? GLEW_OK); repeat constructor. }
  apply (proj1 (trace_call_bind _ _ _)) in H
    as [-> | (version & tr & -> & H)]; try (cbn beta in H).
  { left. repeat constructor. rewrite app_nil_r. exact Hq. }
  apply (proj1 (trace_call_bind _ _ _)) in H
    as [-> | ([] & tr' & -> & H)]; try (cbn beta in H).
  { left. repeat constructor. apply Forall_app. split; [exact Hq|].
    repeat constructor. }
  apply (proj1 (trace_bind _ _ _)) in H
    as [H | (u' & tru & trd & Hu & H & ->)].
  { left. repeat constructor. apply Forall_app. split; [exact Hq|].
    repeat constructor. exact (upload_geometry_no_draw pf _ H). }
  apply upload_geometry_runs in Hu as (buffer & ibo & ->).
  destruct (ParseShader fs "res/shaders/Basic.shader") as [source | i].
  2:{ left. repeat constructor. apply Forall_app. split; [exact Hq|].
      repeat constructor.
      apply (proj1 (trace_call_bind _ _ _)) in H as [-> | ([] & _)].
      repeat constructor. }
  right. exists ok, window, status, version, buffer, ibo, source, trd.
  split; [exact H|].
  unfold startup_calls. rewrite Hs, <- !app_assoc. reflexivity.
Qed.

(** Where a call with property [P] sits once a sequence is cut after a part
    that has no such call. *)
Lemma split_after {A : Type} (P : A -> bool) (l1 l2 tr1 tr2 : list A) (o : A) :
  Forall (fun a => P a = false) l1 -> P o = true ->
  (l1 ++ l2 = tr1 ++ o :: tr2)%list ->
  exists d, tr1 = (l1 ++ d)%list /\ l2 = (d ++ o :: tr2)%list.
Proof.
  intros H Ho. revert tr1. induction H as [|a l1 Ha _ IH]; intros tr1 E.
  - exists tr1. auto.
  - destruct tr1 as [|b tr1]; simpl in E; injection E as -> E.
    + congruence.
    + destruct (IH tr1 E) as (d & -> & ->). exists d. auto.
Qed.

Lemma filter_none {A : Type} (P : A -> bool) (l : list A) :
  Forall (fun a => P a = false) l -> filter P l = [].
Proof.
  induction 1 as [|a l Ha _ IH]; simpl; [reflexivity|]. rewrite Ha. exact IH.
Qed.

(** *** Unfinished executions of the render loop *)

(** What was done up to some moment was done in that order. *)
Lemma trace_prefix {R : Type} (t : itree glE R) (p q : list obs) :
  trace_of t (p ++ q) -> trace_of t p.
Proof.
  intros H. remember (p ++ q)%list as l eqn:E. revert p E.
  induction H as [t | t u tr Et _ IH | t X e k x tr Et _ IH]; intros p E.
  - destruct p; [apply trace_nil | discriminate].
  - apply trace_tau with u; [exact Et | apply IH; exact E].
  - destruct p as [|o p]; [apply trace_nil|].
    simpl in E. injection E as <- E.
    apply trace_vis with k; [exact Et | apply IH; exact E].
Qed.

Ltac early := eexists; reflexivity.

Lemma render_frame_traces (window : GLFWwindow) (tr : list obs) :
  trace_of (render_frame window) tr ->
  begins (Obs (glfwWindowShouldClose window) 0 :: tr) (frame_calls window).
Proof.
  unfold render_frame, frame_calls, begins. intros H.
  apply (proj1 (trace_call_bind _ _ _)) in H as [-> | ([] & tr1 & -> & H)];
    [early|].
  apply (proj1 (trace_call_bind _ _ _)) in H as [-> | ([] & tr2 & -> & H)];
    [early|].
  apply (proj1 (trace_call_bind _ _ _)) in H as [-> | ([] & tr3 & -> & H)];
    [early|].
  apply (proj1 (trace_call _ _)) in H as [-> | ([] & ->)]; [early|].
  exists []. reflexivity.
Qed.

Lemma render_loop_traces_len (window : GLFWwindow) (len : nat) :
  forall tr : list obs,
    (List.length tr <= len)%nat ->
    trace_of (render_loop window) tr ->
    exists n rest,
      tr = (frames window n ++ rest)%list /\
      (begins rest (frame_calls window)
       \/ exists close,
            close <> 0 /\ rest = [Obs (glfwWindowShouldClose window) close]).
Proof.
  unfold render_loop. induction len as [|len IH]; intros tr Hlen H.
  { destruct tr; [|simpl in Hlen; lia]. exists O, []. split; [reflexivity|].
    left. exists (frame_calls window). reflexivity. }
  apply (proj1 (trace_iter _ _ _)) in H
    as [H | (lr & tr1 & tr2 & Hbody & -> & Hrest)].
  - apply (proj1 (trace_call_bind _ _ _)) in H as [-> | (close & tr' & -> & H)].
    { exists O, []. split; [reflexivity|].
      left. exists (frame_calls window). reflexivity. }
    cbn beta in H. exists O. eexists. split; [reflexivity|].
    destruct (Z.eqb_spec close 0) as [-> | Hc].
    + left. apply (proj1 (trace_bind _ _ _)) in H
        as [H | (u & trf & tr3 & Hf & H & ->)].
      * apply render_frame_traces. exact H.
      * apply (proj1 (trace_Ret _ _)) in H as ->. rewrite app_nil_r.
        apply render_frame_runs in Hf. rewrite Hf. exists []. 
        rewrite app_nil_r. reflexivity.
    + right. apply (proj1 (trace_Ret _ _)) in H as ->. eauto.
  - answer Hbody. rename x into close.
    destruct (Z.eqb_spec close 0) as [-> | Hc].
    + apply (proj1 (runs_bind _ _ _ _)) in Hbody
        as (v & trf & tr3 & Hf & Hr & ->).
      apply (proj1 (runs_Ret _ _ _)) in Hr as [-> ->].
      apply render_frame_runs in Hf.
      destruct (IH tr2) as (n & rest & -> & Hshape).
      * simpl in Hlen. rewrite !length_app in Hlen. lia.
      * exact Hrest.
      * exists (S n), rest. split; [|exact Hshape].
        rewrite app_nil_r, Hf.
        change (frames window (S n)) with (frame_calls window ++ frames window n)%list.
        rewrite <- app_assoc. reflexivity.
    + apply (proj1 (runs_Ret _ _ _)) in Hbody as [-> ->]. subst tr2.
      exists O. eexists. split; [reflexivity|]. right. eauto.
Qed.

Lemma render_and_shutdown_traces_only (window : GLFWwindow) (shader : Z)
      (tr : list obs) :
  trace_of (render_and_shutdown window shader) tr ->
  exists n rest,
    tr = (frames window n ++ rest)%list /\
    (begins rest (frame_calls window)
     \/ exists close,
          close <> 0 /\ begins rest (closing_calls window shader close)).
Proof.
  unfold render_and_shutdown. intros H.
  apply (proj1 (trace_bind _ _ _)) in H as [H | (u & trl & tr' & Hl & H & ->)].
  - apply (render_loop_traces_len window (List.length tr)) in H; [|lia].
    destruct H as (n & rest & -> & [Hb | (close & Hc & ->)]);
      exists n; eexists; (split; [reflexivity|]); [left; exact Hb|].
    right. exists close. split; [exact Hc|]. unfold closing_calls. early.
  - apply render_loop_runs in Hl as (n & close & Hc & ->).
    exists n. eexists. split; [rewrite <- app_assoc; reflexivity|].
    right. exists close. split; [exact Hc|]. unfold closing_calls, begins.
    apply (proj1 (trace_call_bind _ _ _)) in H as [-> | ([] & tr1 & -> & H)];
      [early|].
    apply (proj1 (trace_call_bind _ _ _)) in H as [-> | ([] & tr2 & -> & H)];
      [early|].
    apply (proj1 (trace_Ret _ _)) in H as ->. exists []. reflexivity.
Qed.

(** *** The example execution *)

Lemma frames_add (window : GLFWwindow) (n m : nat) :
  frames window (n + m) = (frames window n ++ frames window m)%list.
Proof.
  induction n as [|n IH]; simpl; [reflexivity|]. rewrite IH. reflexivity.
Qed.

Lemma example_run (status : Z) :
  runs (main example_platform example_fs) (example_calls status) 0.
Proof.
  apply main_runs. right. right.
  exists 1, example_window, status, "4.6.0"%string, 1, 2, example_source.
  eexists.
  split; [discriminate|]. split; [exact ParseShader_example|].
  split; [|reflexivity].
  apply draw_with_runs. exists 3. eexists _, _.
  split; [|split; [|reflexivity]].
  - apply CreateShader_runs. exists 3, 1, 2. eexists _, _.
    split; [|split; [|split; reflexivity]].
    + apply CompileShader_runs. exists 1, 1. right.
      split; [discriminate|]. split; reflexivity.
    + apply CompileShader_runs. exists 2, 1. right.
      split; [discriminate|]. split; reflexivity.
  - apply render_and_shutdown_runs. exists 2%nat, 1.
    split; [discriminate|]. split; reflexivity.
Qed.

(** * The statements of the specification *)

(** ** ParseShader *)

Lemma starts_no_section_plain (line : string) :
  plain_line line = true -> starts_no_section line.
Proof.
  unfold plain_line. intros H Hm. apply find_spec in Hm.
  rewrite Hm in H. discriminate.
Qed.

Lemma occurs_in_found (pat line : string) :
  found (find line pat) = true -> occurs_in pat line.
Proof. apply find_spec. Qed.

Lemma not_occurs_in_found (pat line : string) :
  found (find line pat) = false -> ~ occurs_in pat line.
Proof. apply find_none. Qed.

(** C1. A file made of one vertex section and one fragment section, in either
    order, each introduced by its marker line: [ParseShader] returns as vertex
    block the lines of the vertex section and as fragment block the lines of
    the fragment section, every line followed by a line terminator; lines that
    carry the marker token reach neither block; which block a section goes to
    is decided by the stage keyword of its marker line, not by its position. *)
Theorem ParseShader_two_sections (fs : filesystem) (filepath : string)
    (mv mf : string) (bv bf : list string) :
  vertex_marker mv -> fragment_marker mf ->
  Forall starts_no_section bv -> Forall starts_no_section bf ->
  getlines (ifstream fs filepath) = mv :: bv ++ mf :: bf \/
  getlines (ifstream fs filepath) = mf :: bf ++ mv :: bv ->
  ParseShader fs filepath =
  Ok {| vertexSource := block_of bv; fragmentSource := block_of bf |}.
Proof.
  intros Hv Hf Hbv Hbf Hfile. unfold ParseShader.
  rewrite parse_loop_lines.
  unfold ss_init. destruct Hfile as [-> | ->]; simpl.
  - rewrite (parse_line_vertex _ _ Hv). simpl.
    rewrite parse_lines_app, parse_lines_vertex_body by assumption. simpl.
    rewrite (parse_line_fragment _ _ Hf). simpl.
    rewrite parse_lines_fragment_body by assumption. reflexivity.
  - rewrite (parse_line_fragment _ _ Hf). simpl.
    rewrite parse_lines_app, parse_lines_fragment_body by assumption. simpl.
    rewrite (parse_line_vertex _ _ Hv). simpl.
    rewrite parse_lines_vertex_body by assumption. reflexivity.
Qed.

Lemma ParseShader_two_sections_witness :
  ParseShader example_fs "res/shaders/Basic.shader" =
  Ok {| vertexSource := unlines example_vertex_body;
        fragmentSource := unlines example_fragment_body |}.
Proof.
  apply (ParseShader_two_sections example_fs "res/shaders/Basic.shader"
           "#shader vertex" "#shader fragment"
           example_vertex_body example_fragment_body).
  - split; apply occurs_in_found; reflexivity.
  - repeat split; [apply occurs_in_found | apply occurs_in_found
                   | apply not_occurs_in_found]; reflexivity.
  - unfold example_vertex_body.
    repeat (apply Forall_cons; [apply starts_no_section_plain; reflexivity|]).
    apply Forall_nil.
  - unfold example_fragment_body.
    repeat (apply Forall_cons; [apply starts_no_section_plain; reflexivity|]).
    apply Forall_nil.
  - left. vm_compute. reflexivity.
Defined.

(** The part of C2 the code keeps: a file that delivers no line at all, or
    that cannot be opened, gives two empty blocks. *)
Lemma ParseShader_no_lines (fs : filesystem) (filepath : string) :
  getlines (ifstream fs filepath) = [] ->
  ParseShader fs filepath =
  Ok {| vertexSource := EmptyString; fragmentSource := EmptyString |}.
Proof.
  intros H. unfold ParseShader. rewrite parse_loop_lines, H. reflexivity.
Qed.

(** C2. A line without the marker token that comes before any marker line
    is not dropped: the loop writes it to [ss[-1]], outside the array of two
    streams. The specification's statement (such lines reach neither block,
    and a file without marker lines gives two empty blocks) fails on every
    file whose first line lacks the marker token. *)
Theorem ParseShader_text_before_first_marker (fs : filesystem)
    (filepath line : string) (rest : list string) :
  getlines (ifstream fs filepath) = line :: rest ->
  ~ occurs_in "#shader" line ->
  ParseShader fs filepath = OutOfBounds (-1).
Proof.
  intros Hfile Hplain. unfold ParseShader.
  rewrite parse_loop_lines, Hfile. simpl.
  rewrite parse_line_plain; [reflexivity|].
  unfold plain_line. apply find_none in Hplain. rewrite Hplain. reflexivity.
Qed.

Lemma ParseShader_text_before_first_marker_witness :
  ParseShader (one_file "res/shaders/Basic.shader" ("// quad" ++ String newline example_shader))
              "res/shaders/Basic.shader"
  = OutOfBounds (-1).
Proof.
  apply (ParseShader_text_before_first_marker _ _ "// quad"
           ("#shader vertex" :: example_vertex_body
            ++ "#shader fragment" :: example_fragment_body)).
  - vm_compute. reflexivity.
  - apply not_occurs_in_found. reflexivity.
Defined.

(** C8. A line that contains the marker token and both stage keywords sets
    the current target to VERTEX, whatever the state before it, and leaves
    both blocks as they were. *)
Theorem parse_line_both_keywords (st : parse_state) (line : string) :
  occurs_in "#shader" line -> occurs_in "vertex" line -> occurs_in "fragment" line ->
  parse_line st line = Ok {| ss := ss st; type := VERTEX |}.
Proof.
  intros Hm Hv _. apply parse_line_vertex. split; assumption.
Qed.

Lemma parse_line_both_keywords_witness :
  parse_line {| ss := ["a"; "b"]; type := FRAGMENT |} "#shader fragment vertex"
  = Ok {| ss := ["a"; "b"]; type := VERTEX |}.
Proof.
  apply (parse_line_both_keywords {| ss := ["a"; "b"]; type := FRAGMENT |});
    apply occurs_in_found; reflexivity.
Defined.

(** C10. A line that contains the marker token but neither stage keyword
    leaves the current target and both blocks as they were: the line is
    discarded. *)
Theorem parse_line_marker_without_stage (st : parse_state) (line : string) :
  occurs_in "#shader" line ->
  ~ occurs_in "vertex" line -> ~ occurs_in "fragment" line ->
  parse_line st line = Ok st.
Proof.
  intros Hm Hv Hf. apply parse_line_stageless.
  - unfold plain_line. apply find_spec in Hm. rewrite Hm. reflexivity.
  - intros _. auto.
Qed.

Lemma parse_line_marker_without_stage_witness :
  parse_line {| ss := ["a"; "b"]; type := VERTEX |} "#shader geometry"
  = Ok {| ss := ["a"; "b"]; type := VERTEX |}.
Proof.
  apply (parse_line_marker_without_stage {| ss := ["a"; "b"]; type := VERTEX |}).
  - apply occurs_in_found. reflexivity.
  - apply not_occurs_in_found. reflexivity.
  - apply not_occurs_in_found. reflexivity.
Defined.

(** ** CompileShader and CreateShader *)

(** The size [alloca] is asked for when the driver reports a negative log
    length: the conversion to [size_t] wraps around. *)
Lemma alloca_size_of_negative_length (width length : Z) :
  0 <= width -> - 2 ^ width <= length < 0 ->
  size_t_value width (to_size_t (length * sizeof_char)) = 2 ^ width + length.
Proof.
  intros Hw Hl. unfold size_t_value, sizeof_char. rewrite Z.mul_1_r.
  rewrite <- (Z_mod_plus_full length 1 (2 ^ width)).
  rewrite Z.mod_small; lia.
Qed.

(** C5, as stated, does not hold. First run: [glCreateShader] answers 0
    and the status read back is 1; [CompileShader] returns 0 although no
    compile failure was reported, so "zero exactly on failure" fails. Second
    run: the compilation fails with a log of length 0; what is printed after
    the stage name is a buffer nobody wrote, not the log text. *)
Lemma CompileShader_zero_iff_failure_counterexample :
  ~ (forall tr r id result rest,
        runs (CompileShader GL_VERTEX_SHADER "void main() {}") tr r ->
        tr = (compile_calls GL_VERTEX_SHADER "void main() {}" id result ++ rest)%list ->
        (r = 0 <-> result = GL_FALSE))
  /\ runs (CompileShader GL_VERTEX_SHADER "void main() {")
          [ Obs (glCreateShader GL_VERTEX_SHADER) 7;
            Obs (glShaderSource 7 1 "void main() {") tt;
            Obs (glCompileShader 7) tt;
            Obs (glGetShaderiv 7 GL_COMPILE_STATUS) GL_FALSE;
            Obs (glGetShaderiv 7 GL_INFO_LOG_LENGTH) 0;
            Obs (alloca (to_size_t 0)) tt;
            Obs (glGetShaderInfoLog 7 0) (0, EmptyString);
            Obs (cout ("Failed to compile vertex shader!" ++ endl)) tt;
            Obs (cout_c_str uninitialised) tt;
            Obs (glDeleteShader 7) tt ]
          0.
Proof.
  split.
  - intros H.
    assert (R : runs (CompileShader GL_VERTEX_SHADER "void main() {}")
                     (compile_calls GL_VERTEX_SHADER "void main() {}" 0 1 ++ []) 0).
    { apply CompileShader_runs. exists 0, 1. right.
      split; [discriminate|]. split; reflexivity. }
    destruct (H _ 0 0 1 [] R eq_refl) as [H0 _].
    specialize (H0 eq_refl). discriminate.
  - apply CompileShader_runs. exists 7, GL_FALSE. left.
    split; [reflexivity|]. split; [reflexivity|].
    exists 0, (0, EmptyString). reflexivity.
Qed.

(** C5, amended. Every run of [CompileShader] creates a stage object,
    submits the source, compiles and reads the status back. If the status is
    [GL_FALSE], it asks for the length of the log, then allocates the
    buffer, then fetches the log, prints the stage name and the buffer,
    deletes the stage object and returns 0; the buffer printed is the log
    text whenever the length is positive. Otherwise it makes no further call
    and returns the handle [glCreateShader] gave. When that handle is not 0,
    the result is 0 exactly when the status was [GL_FALSE]. Whatever the
    driver answers, the function returns. *)
Theorem CompileShader_with_stage_object (type : GLenum) (source : string) :
  (forall tr r,
      runs (CompileShader type source) tr r ->
      exists id result rest,
        tr = (compile_calls type source id result ++ rest)%list /\
        (id <> 0 -> (r = 0 <-> result = GL_FALSE)) /\
        (result = GL_FALSE ->
         r = 0 /\
         exists length log,
           rest = failure_calls type id length log /\
           (0 < length -> message_after length log = written (snd log))) /\
        (result <> GL_FALSE -> r = id /\ rest = []))
  /\ (forall id length log,
         runs (CompileShader type source)
              (compile_calls type source id GL_FALSE
               ++ failure_calls type id length log)
              0)
  /\ (forall id result,
         result <> GL_FALSE ->
         runs (CompileShader type source) (compile_calls type source id result) id).
Proof.
  split; [|split].
  - intros tr r H. apply CompileShader_runs in H
      as (id & result & [(E & -> & length & log & ->) | (E & -> & ->)]);
      exists id, result; eexists; (split; [reflexivity|]).
    + split; [intros _; split; auto|]. split; [|contradiction].
      intros _. split; [reflexivity|]. exists length, log.
      split; [reflexivity|]. intros L. unfold message_after.
      destruct (Z.ltb_spec 0 length); [reflexivity | lia].
    + split; [intros Hid; split; congruence|]. split; [contradiction|].
      intros _. split; reflexivity.
  - intros id length log. apply CompileShader_runs. exists id, GL_FALSE. left.
    split; [reflexivity|]. split; [reflexivity|]. eauto.
  - intros id result E. apply CompileShader_runs. exists id, result. right.
    split; [exact E|]. split; reflexivity.
Qed.

(** A vertex stage that fails to compile: handle 7, log of 12 characters. *)
Lemma CompileShader_with_stage_object_witness :
  exists id result rest,
    (compile_calls GL_VERTEX_SHADER "void main() {" 7 GL_FALSE
     ++ failure_calls GL_VERTEX_SHADER 7 13 (12, "syntax error"))%list
    = (compile_calls GL_VERTEX_SHADER "void main() {" id result ++ rest)%list /\
    (id <> 0 -> (0 = 0 <-> result = GL_FALSE)) /\
    (result = GL_FALSE ->
     0 = 0 /\
     exists length log,
       rest = failure_calls GL_VERTEX_SHADER id length log /\
       (0 < length -> message_after length log = written (snd log))) /\
    (result <> GL_FALSE -> 0 = id /\ rest = []).
Proof.
  apply (proj1 (CompileShader_with_stage_object GL_VERTEX_SHADER "void main() {")).
  apply (proj1 (proj2 (CompileShader_with_stage_object GL_VERTEX_SHADER
                         "void main() {"))).
Defined.

(** C6. [CreateShader] makes the same calls whatever [CompileShader]
    returned for the two stages: it creates the program object, compiles both
    stages, attaches both results, links, validates, deletes both stage
    objects and returns the program handle. When both compilations fail the
    handle 0 is attached twice. In [main] the handle [CreateShader] returns
    goes to [glUseProgram] and the render loop without any test. *)
Theorem CreateShader_ignores_compile_failure
    (vertexShader fragmentShader : string) :
  (forall tr r,
      runs (CreateShader vertexShader fragmentShader) tr r <->
      exists program vs fs trv trf,
        runs (CompileShader GL_VERTEX_SHADER vertexShader) trv vs /\
        runs (CompileShader GL_FRAGMENT_SHADER fragmentShader) trf fs /\
        r = program /\
        tr = (Obs glCreateProgram program
              :: trv ++ trf ++ link_calls program vs fs)%list)
  /\ (forall program idv idf lenv lenf logv logf,
         runs (CreateShader vertexShader fragmentShader)
              (Obs glCreateProgram program
               :: (compile_calls GL_VERTEX_SHADER vertexShader idv GL_FALSE
                   ++ failure_calls GL_VERTEX_SHADER idv lenv logv)
               ++ (compile_calls GL_FRAGMENT_SHADER fragmentShader idf GL_FALSE
                   ++ failure_calls GL_FRAGMENT_SHADER idf lenf logf)
               ++ link_calls program 0 0)
              program)
  /\ (forall window tr r,
         runs (draw_with window
                 {| vertexSource := vertexShader;
                    fragmentSource := fragmentShader |}) tr r <->
         exists shader trc trl,
           runs (CreateShader vertexShader fragmentShader) trc shader /\
           runs (render_and_shutdown window shader) trl r /\
           tr = (trc ++ Obs (glUseProgram shader) tt :: trl)%list).
Proof.
  split; [|split].
  - intros tr r. apply CreateShader_runs.
  - intros program idv idf lenv lenf logv logf.
    apply CreateShader_runs. exists program, 0, 0. eexists _, _.
    split; [|split; [|split; reflexivity]];
      apply CompileShader_runs; eexists _, GL_FALSE; left;
      (split; [reflexivity|]); (split; [reflexivity|]); eexists _, _; reflexivity.
  - intros window tr r. apply draw_with_runs.
Qed.

(** Both stages fail to compile; the program object 3 is linked all the same. *)
Lemma CreateShader_ignores_compile_failure_witness :
  runs (CreateShader "void main() {" "}")
       (Obs glCreateProgram 3
        :: (compile_calls GL_VERTEX_SHADER "void main() {" 1 GL_FALSE
            ++ failure_calls GL_VERTEX_SHADER 1 13 (12, "syntax error"))
        ++ (compile_calls GL_FRAGMENT_SHADER "}" 2 GL_FALSE
            ++ failure_calls GL_FRAGMENT_SHADER 2 13 (12, "syntax error"))
        ++ link_calls 3 0 0)
       3.
Proof.
  apply (proj1 (proj2 (CreateShader_ignores_compile_failure "void main() {" "}"))).
Defined.

(** ** The geometry upload *)

(** C3. The upload makes these eight calls and no other. The size handed
    over with the positions is [6 * 2 * sizeof(float)]: the bytes of the array
    of 4 vertices and 4 floats more, so the driver is told to read past the
    end of the array. The size handed over with the indices is the size of
    the index array. *)
Theorem upload_geometry_sizes (pf : platform) (tr : list obs) (u : unit) :
  runs (upload_geometry pf) tr u ->
  exists buffer indexBufferObject,
    tr = upload_calls pf buffer indexBufferObject /\
    filter is_buffer_write tr =
    [ Obs (glBufferData GL_ARRAY_BUFFER
             (array_bytes pf (floats positions) + 4 * sizeof_float pf)
             (floats positions) GL_STATIC_DRAW) tt;
      Obs (glBufferData GL_ELEMENT_ARRAY_BUFFER
             (array_bytes pf (unsigned_ints indices))
             (unsigned_ints indices) GL_STATIC_DRAW) tt ].
Proof.
  intros H. apply upload_geometry_runs in H as (buffer & ibo & ->).
  exists buffer, ibo. split; [reflexivity|].
  assert (E1 : array_bytes pf (floats positions) + 4 * sizeof_float pf
               = 6 * 2 * sizeof_float pf)
    by (unfold array_bytes, positions; cbn [List.length]; lia).
  assert (E2 : array_bytes pf (unsigned_ints indices) = 6 * sizeof_unsigned_int pf)
    by (unfold array_bytes, indices; cbn [List.length]; lia).
  rewrite E1, E2. reflexivity.
Qed.

Lemma upload_geometry_sizes_witness :
  exists buffer indexBufferObject,
    upload_calls example_platform 1 2
    = upload_calls example_platform buffer indexBufferObject /\
    filter is_buffer_write (upload_calls example_platform 1 2) =
    [ Obs (glBufferData GL_ARRAY_BUFFER (32 + 16) (floats positions) GL_STATIC_DRAW) tt;
      Obs (glBufferData GL_ELEMENT_ARRAY_BUFFER 24
             (unsigned_ints indices) GL_STATIC_DRAW) tt ].
Proof.
  apply (upload_geometry_sizes example_platform (upload_calls example_platform 1 2) tt).
  apply upload_geometry_runs. exists 1, 2. reflexivity.
Defined.

(** ** main *)

(** C4. When [glewInit] answers anything but [GLEW_OK], [main] prints
    ERROR and goes on with the version query; if it then ends, it ends with
    exit code 0. The specification's statement (a nonzero exit code whenever
    the driver fails to initialise) fails on every such execution. *)
Theorem main_exit_code_after_glewInit_failure (pf : platform) (fs : filesystem)
    (tr : list obs) (r status : Z) :
  runs (main pf fs) tr r ->
  glewInit_answer tr = Some status ->
  status <> GLEW_OK ->
  r = 0 /\
  exists ok window version rest,
    tr = ([ Obs glfwInit ok;
            Obs (glfwCreateWindow 640 480 "Hello World" 0 0) (Some window);
            Obs (glfwMakeContextCurrent window) tt;
            Obs glewInit status;
            Obs (cout ("ERROR" ++ endl)) tt;
            Obs (glGetString GL_VERSION) version ] ++ rest)%list.
Proof.
  intros H Hs Hbad.
  apply main_runs in H
    as [[-> ->] | [(ok & Hok & -> & ->) |
         (ok & window & status' & version & buffer & ibo & source & trd
          & Hok & P & Hd & ->)]]; try discriminate.
  cbn in Hs. injection Hs as ->. split.
  - apply draw_with_runs in Hd as (shader & trc & trl & _ & Hl & _).
    apply render_and_shutdown_runs in Hl as (n & close & _ & -> & _).
    reflexivity.
  - exists ok, window, version. eexists. unfold startup_calls.
    destruct (Z.eqb_spec status GLEW_OK); [contradiction|]. reflexivity.
Qed.

Lemma main_exit_code_after_glewInit_failure_witness :
  runs (main example_platform example_fs) (example_calls 1) 0 /\
  glewInit_answer (example_calls 1) = Some 1 /\
  1 <> GLEW_OK /\
  (0 = 0 /\
   exists ok window version rest,
     example_calls 1 =
     ([ Obs glfwInit ok;
        Obs (glfwCreateWindow 640 480 "Hello World" 0 0) (Some window);
        Obs (glfwMakeContextCurrent window) tt;
        Obs glewInit 1;
        Obs (cout ("ERROR" ++ endl)) tt;
        Obs (glGetString GL_VERSION) version ] ++ rest)%list).
Proof.
  split; [apply example_run|]. split; [reflexivity|]. split; [discriminate|].
  apply (main_exit_code_after_glewInit_failure example_platform example_fs
           (example_calls 1) 0 1).
  - apply example_run.
  - reflexivity.
  - discriminate.
Defined.

(** C7. The render loop and what follows it. An execution that ends is
    some number of iterations, each one a denied close request followed by
    clear, one draw of 6 indices, swap and poll in this order, then one
    granted close request, the release of the program object and the
    shutdown of the windowing layer, with exit code 0. Every execution,
    ended or not, is at any moment some number of whole iterations followed
    by the beginning of one more iteration or of the closing sequence; and
    each such sequence of calls can happen. *)
Theorem render_loop_two_states (window : GLFWwindow) (shader : Z) :
  (forall tr r,
      runs (render_and_shutdown window shader) tr r <->
      exists n close,
        close <> 0 /\ r = 0 /\
        tr = (frames window n ++ closing_calls window shader close)%list)
  /\ (forall tr,
         trace_of (render_and_shutdown window shader) tr <->
         exists n rest,
           tr = (frames window n ++ rest)%list /\
           (begins rest (frame_calls window)
            \/ exists close,
                 close <> 0 /\ begins rest (closing_calls window shader close))).
Proof.
  split.
  - intros tr r. apply render_and_shutdown_runs.
  - intros tr. split; [apply render_and_shutdown_traces_only|].
    intros (n & rest & -> & [[q Hq] | (close & Hc & [q Hq])]).
    + apply trace_prefix with (q ++ closing_calls window shader 1)%list.
      apply runs_trace with 0. apply render_and_shutdown_runs.
      exists (n + 1)%nat, 1. split; [discriminate|]. split; [reflexivity|].
      rewrite frames_add.
      change (frames window 1) with (frame_calls window ++ [])%list.
      rewrite app_nil_r, Hq, <- !app_assoc. reflexivity.
    + apply trace_prefix with q.
      apply runs_trace with 0. apply render_and_shutdown_runs.
      exists n, close. split; [exact Hc|]. split; [reflexivity|].
      rewrite Hq, <- app_assoc. reflexivity.
Qed.

(** Two frames, then the window is closed. *)
Lemma render_loop_two_states_witness :
  runs (render_and_shutdown example_window 3)
       (frame_calls example_window ++ frame_calls example_window
        ++ closing_calls example_window 3 1)
       0.
Proof.
  apply (proj2 (proj1 (render_loop_two_states example_window 3) _ 0)).
  exists 2%nat, 1. split; [discriminate|]. split; reflexivity.
Defined.

(** C9. Every entry of the index array is a vertex of the position array.
    In any execution of [main], ended or not, every draw call is the draw of
    all 6 indices as unsigned ints from the start of the bound index buffer;
    before it the only buffer writes are the two uploads, positions then
    indices; after it no buffer is written. *)
Theorem indices_within_vertices :
  Forall (fun i => 0 <= i < vertex_count) indices
  /\ forall (pf : platform) (fs : filesystem) (tr tr1 tr2 : list obs) (o : obs),
       trace_of (main pf fs) tr ->
       tr = (tr1 ++ o :: tr2)%list ->
       is_draw o = true ->
       o = the_draw /\
       filter is_buffer_write tr1 = the_uploads pf /\
       filter is_buffer_write tr2 = [].
Proof.
  split.
  - unfold indices. repeat constructor; vm_compute; congruence.
  - intros pf fs tr tr1 tr2 o H E Ho.
    apply main_traces in H
      as [H | (ok & window & status & version & buffer & ibo & source & trd
               & Hd & ->)].
    + subst tr. apply Forall_app in H as [_ H].
      apply Forall_inv in H. congruence.
    + rewrite app_assoc in E.
      apply (split_after is_draw) in E as (d & -> & ->); [|..| exact Ho].
      2:{ apply Forall_app. split.
          - unfold startup_calls. destruct (status =? GLEW_OK); repeat constructor.
          - repeat constructor. }
      apply draw_with_drawing in Hd.
      apply Forall_app in Hd as [Hd1 Hd2].
      pose proof (Forall_inv Hd2) as [_ Hdraw].
      apply Forall_inv_tail in Hd2.
      split; [exact (Hdraw Ho)|]. split.
      * rewrite !filter_app.
        rewrite (filter_none is_buffer_write d).
        2:{ eapply Forall_impl; [|exact Hd1]. intros a [Ha _]. exact Ha. }
        rewrite app_nil_r. unfold startup_calls.
        destruct (status =? GLEW_OK); reflexivity.
      * apply filter_none.
        eapply Forall_impl; [|exact Hd2]. intros a [Ha _]. exact Ha.
Qed.

(** The hypotheses of C9 are met: in the example execution the third call
    after [glUseProgram] is a draw. *)
Lemma indices_within_vertices_witness :
  the_draw = the_draw /\
  filter is_buffer_write example_before_draw = the_uploads example_platform /\
  filter is_buffer_write example_after_draw = [].
Proof.
  apply (proj2 indices_within_vertices example_platform example_fs
           (example_calls 0) example_before_draw example_after_draw the_draw).
  - apply runs_trace with 0. apply example_run.
  - reflexivity.
  - reflexivity.
Defined.

(** * Further properties of the code *)

(** ** ParseShader on arbitrary files *)

Lemma unlines_app (a b : list string) :
  unlines (a ++ b) = unlines a ++ unlines b.
Proof.
  induction a as [|line a IH]; simpl; [reflexivity|].
  rewrite IH, append_assoc. reflexivity.
Qed.

Lemma unlines_snoc (a : list string) (line : string) :
  unlines a ++ (line ++ String newline EmptyString) = unlines (a ++ [line]).
Proof. rewrite unlines_app. reflexivity. Qed.

(** A line with the marker token changes at most the current target. *)
Lemma parse_line_marker (st : parse_state) (line : string) :
  plain_line line = false ->
  exists t, parse_line st line = Ok {| ss := ss st; type := t |}.
Proof.
  unfold plain_line, parse_line. intros H. apply negb_false_iff in H. rewrite H.
  destruct (found (find line "vertex")); [eauto|].
  destruct (found (find line "fragment")); [eauto|].
  exists (type st). destruct st. reflexivity.
Qed.

Lemma plain_line_iff (line : string) :
  plain_line line = true <-> ~ occurs_in "#shader" line.
Proof.
  unfold plain_line. rewrite negb_true_iff. apply find_none.
Qed.

Lemma marker_line_iff (line : string) :
  plain_line line = false <-> occurs_in "#shader" line.
Proof.
  unfold plain_line. rewrite negb_false_iff. apply find_spec.
Qed.

(** Every line is a plain line, a vertex marker, a fragment marker or a
    marker line without stage. *)
Lemma line_cases (line : string) :
  plain_line line = true \/ vertex_marker line \/ fragment_marker line
  \/ stageless_marker line.
Proof.
  destruct (plain_line line) eqn:P; [auto|]. right.
  apply marker_line_iff in P.
  destruct (found (find line "vertex")) eqn:V.
  - left. split; [exact P | apply find_spec; exact V].
  - right. apply find_none in V.
    destruct (found (find line "fragment")) eqn:F.
    + left. repeat split; [exact P | apply find_spec; exact F | exact V].
    + right. apply find_none in F. repeat split; assumption.
Qed.

Lemma parse_line_stageless_marker (st : parse_state) (line : string) :
  stageless_marker line -> parse_line st line = Ok st.
Proof.
  intros (Hm & Hv & Hf). apply parse_line_stageless.
  - apply marker_line_iff. exact Hm.
  - intros _. auto.
Qed.

(** Once a stage is selected no line is written out of range. *)
Lemma parse_lines_in_range (lines : list string) :
  forall (v f : string) (t : ShaderType),
    t <> NONE ->
    exists v' f' t',
      parse_lines lines {| ss := [v; f]; type := t |}
      = Ok {| ss := [v'; f']; type := t' |} /\ t' <> NONE.
Proof.
  induction lines as [|line lines IH]; intros v f t Ht; simpl.
  - eauto.
  - destruct (line_cases line) as [P | [V | [F | S]]].
    + rewrite parse_line_plain by exact P.
      destruct t; [contradiction | |]; simpl; apply IH; discriminate.
    + rewrite (parse_line_vertex _ _ V). simpl. apply IH. discriminate.
    + rewrite (parse_line_fragment _ _ F). simpl. apply IH. discriminate.
    + rewrite (parse_line_stageless_marker _ _ S). simpl. apply IH. exact Ht.
Qed.

(** Before any stage is selected: the loop goes out of range exactly at a
    plain line that only stageless marker lines precede, and then with
    index -1. *)
Lemma parse_lines_out_of_range (lines : list string) (v f : string) (i : Z) :
  parse_lines lines {| ss := [v; f]; type := NONE |} = OutOfBounds i <->
  i = -1 /\
  exists pre line rest,
    lines = (pre ++ line :: rest)%list /\
    Forall stageless_marker pre /\ ~ occurs_in "#shader" line.
Proof.
  induction lines as [|line lines IH]; simpl.
  - split; [discriminate|]. intros (_ & pre & l & rest & E & _).
    destruct pre; discriminate.
  - destruct (line_cases line) as [P | [V | [F | S]]].
    + rewrite parse_line_plain by exact P. simpl. split.
      * intros H. injection H as <-. split; [reflexivity|].
        exists [], line, lines. repeat split; [constructor|].
        apply plain_line_iff. exact P.
      * intros [-> _]. reflexivity.
    + rewrite (parse_line_vertex _ _ V). simpl.
      destruct (parse_lines_in_range lines v f VERTEX) as (v' & f' & t' & -> & _);
        [discriminate|].
      split; [discriminate|]. intros (_ & pre & l & rest & E & Hpre & Hl).
      destruct V as [Vm Vv]. destruct pre as [|p pre]; injection E as <- _.
      * contradiction.
      * apply Forall_inv in Hpre. destruct Hpre as (_ & Hv & _). contradiction.
    + rewrite (parse_line_fragment _ _ F). simpl.
      destruct (parse_lines_in_range lines v f FRAGMENT) as (v' & f' & t' & -> & _);
        [discriminate|].
      split; [discriminate|]. intros (_ & pre & l & rest & E & Hpre & Hl).
      destruct F as (Fm & Ff & _). destruct pre as [|p pre]; injection E as <- _.
      * contradiction.
      * apply Forall_inv in Hpre. destruct Hpre as (_ & _ & Hf). contradiction.
    + rewrite (parse_line_stageless_marker _ _ S). simpl. rewrite IH.
      split; intros (-> & pre & l & rest & E & Hpre & Hl); (split; [reflexivity|]).
      * exists (line :: pre), l, rest. subst lines. repeat split; auto.
      * destruct S as (Sm & _). destruct pre as [|p pre]; injection E as <- E.
        -- contradiction.
        -- exists pre, l, rest. apply Forall_inv_tail in Hpre. auto.
Qed.

(** The sections of a well-formed file go to their blocks one after the
    other, whatever the state the file is entered with. *)
Lemma parse_lines_sections (sections : list section) :
  Forall well_formed sections ->
  forall (v f : string) (t : ShaderType),
  exists t',
    parse_lines (file_lines sections) {| ss := [v; f]; type := t |}
    = Ok {| ss := [v ++ stage_block VERTEX sections;
                   f ++ stage_block FRAGMENT sections];
            type := t' |}.
Proof.
  induction 1 as [|s sections [Hm Hb] _ IH]; intros v f t.
  - exists t. simpl. rewrite !append_empty_r. reflexivity.
  - cbn [file_lines stage_block]. rewrite <- app_comm_cons. cbn [parse_lines].
    destruct Hm as [[E Hm] | [E Hm]]; rewrite E; cbn [ShaderType_eqb].
    + rewrite (parse_line_vertex _ _ Hm). cbn [bind_outcome ss].
      rewrite parse_lines_app, parse_lines_vertex_body by exact Hb.
      cbn [bind_outcome].
      destruct (IH (v ++ block_of (body s)) f VERTEX) as (t' & ->).
      exists t'. rewrite append_assoc. reflexivity.
    + rewrite (parse_line_fragment _ _ Hm). cbn [bind_outcome ss].
      rewrite parse_lines_app, parse_lines_fragment_body by exact Hb.
      cbn [bind_outcome].
      destruct (IH v (f ++ block_of (body s)) FRAGMENT) as (t' & ->).
      exists t'. rewrite append_assoc. reflexivity.
Qed.

Lemma ss_write_vertex (v f text : string) :
  ss_write [v; f] (ShaderType_int VERTEX) text = Ok [v ++ text; f].
Proof. reflexivity. Qed.

Lemma ss_write_fragment (v f text : string) :
  ss_write [v; f] (ShaderType_int FRAGMENT) text = Ok [v; f ++ text].
Proof. reflexivity. Qed.

(** What the loop appended to the two streams: the plain lines it read,
    dealt to the one or the other, in the order of the file. *)
Lemma parse_lines_blocks (lines : list string) :
  forall (av af : list string) (t : ShaderType) (st' : parse_state),
    parse_lines lines {| ss := [unlines av; unlines af]; type := t |} = Ok st' ->
    exists lv lf,
      ss st' = [unlines (av ++ lv); unlines (af ++ lf)] /\
      interleave lv lf (filter plain_line lines).
Proof.
  induction lines as [|line lines IH]; intros av af t st' H; simpl in H.
  - injection H as <-. exists [], []. rewrite !app_nil_r. split; constructor.
  - destruct (plain_line line) eqn:P; cbn [filter]; rewrite P.
    + rewrite parse_line_plain in H by exact P.
      cbn [ss type] in H. destruct t; [discriminate | |].
      * rewrite ss_write_vertex in H. cbn [bind_outcome] in H.
        rewrite unlines_snoc in H. apply IH in H as (lv & lf & -> & Hi).
        exists (line :: lv), lf. rewrite <- app_assoc. split; [reflexivity|].
        constructor. exact Hi.
      * rewrite ss_write_fragment in H. cbn [bind_outcome] in H.
        rewrite unlines_snoc in H. apply IH in H as (lv & lf & -> & Hi).
        exists lv, (line :: lf). rewrite <- app_assoc. split; [reflexivity|].
        constructor. exact Hi.
    + destruct (parse_line_marker {| ss := [unlines av; unlines af]; type := t |}
                  line P) as (t' & E).
      rewrite E in H. cbn in H. apply IH in H. exact H.
Qed.

Lemma interleave_all {A : Type} (P : A -> Prop) (l1 l2 l : list A) :
  interleave l1 l2 l -> Forall P l -> Forall P l1 /\ Forall P l2.
Proof.
  induction 1 as [|a l1 l2 l _ IH | a l1 l2 l _ IH]; intros H.
  - split; constructor.
  - inversion H as [|? ? Ha Hl]; subst. destruct (IH Hl). split; [constructor|]; auto.
  - inversion H as [|? ? Ha Hl]; subst. destruct (IH Hl). split; [|constructor]; auto.
Qed.

(** ** Lines and text *)

Lemma read_line_no_newline (stream : string) :
  no_newline (fst (read_line stream)).
Proof.
  induction stream as [|c rest IH]; simpl.
  - intros H. apply occurs_in_empty in H. discriminate.
  - destruct (Ascii.eqb_spec c newline) as [-> | Hc]; simpl.
    + intros H. apply occurs_in_empty in H. discriminate.
    + destruct (read_line rest) as [line rest']. simpl in *.
      intros H. apply occurs_in_cons in H as [[post H] | H].
      * injection H as H _. contradiction.
      * contradiction.
Qed.

Lemma getlines_no_newline_len (n : nat) :
  forall stream : string,
    (String.length stream <= n)%nat -> Forall no_newline (getlines stream).
Proof.
  induction n as [|n IH]; intros stream Hlen; rewrite getlines_eq.
  { destruct stream; [constructor | simpl in Hlen; lia]. }
  destruct (getline stream) as [[line rest]|] eqn:G; constructor.
  - destruct stream as [|c s]; [discriminate|].
    unfold getline in G. injection G as G.
    change (read_line (String c s) = (line, rest)) in G.
    pose proof (read_line_no_newline (String c s)) as Hn.
    rewrite G in Hn. exact Hn.
  - apply IH. apply getline_shorter in G. lia.
Qed.

(** [getline] never delivers a line terminator. *)
Lemma getlines_no_newline (stream : string) :
  Forall no_newline (getlines stream).
Proof. apply (getlines_no_newline_len (String.length stream)). lia. Qed.






(** A pattern without the separator that begins in front of a separator
    ends in front of it. *)
Lemma prefix_before_separator (c : ascii) (pat : string) :
  ~ occurs_in (String c EmptyString) pat ->
  forall a b post : string,
    a ++ String c b = pat ++ post -> exists post', a = pat ++ post'.
Proof.
  induction pat as [|p pat IH]; intros Hc a b post E.
  - exists a. reflexivity.
  - assert (Hp : c <> p).
    { intros ->. apply Hc. exists EmptyString, pat. reflexivity. }
    assert (Hpat : ~ occurs_in (String c EmptyString) pat).
    { intros (pre & post' & ->). apply Hc. exists (String p pre), post'. reflexivity. }
    destruct a as [|x a]; simpl in E; injection E as E1 E2.
    + contradiction.
    + subst x. destruct (IH Hpat a b post E2) as [post' ->].
      exists post'. reflexivity.
Qed.

(** A pattern without the separator that occurs in two texts joined by the
    separator occurs in one of them. *)
Lemma occurs_across_separator (c : ascii) (pat a b : string) :
  ~ occurs_in (String c EmptyString) pat ->
  occurs_in pat (a ++ String c b) -> occurs_in pat a \/ occurs_in pat b.
Proof.
  intros Hc. induction a as [|x a IH]; simpl; intros H.
  - apply occurs_in_cons in H as [[post H] | H]; [|auto].
    left. destruct (prefix_before_separator c pat Hc EmptyString b post H)
      as [post' E].
    exists EmptyString, post'. exact E.
  - apply occurs_in_cons in H as [[post H] | H].
    + left.
      destruct (prefix_before_separator c pat Hc (String x a) b post H)
        as [post' E].
      exists EmptyString, post'. exact E.
    + destruct (IH H) as [Ha | Hb]; [left | right; exact Hb].
      destruct Ha as (pre & post & ->). exists (String x pre), post. reflexivity.
Qed.

(** Lines without the marker token make a block without the marker token. *)
Lemma unlines_without_marker (lines : list string) :
  Forall (fun line => plain_line line = true) lines ->
  ~ occurs_in "#shader" (unlines lines).
Proof.
  induction 1 as [|line lines Hl _ IH]; simpl.
  - intros H. apply occurs_in_empty in H. discriminate.
  - intros H. apply occurs_across_separator in H as [H | H].
    + apply plain_line_iff in Hl. contradiction.
    + contradiction.
    + apply not_occurs_in_found. reflexivity.
Qed.

Lemma filter_all {A : Type} (P : A -> bool) (l : list A) :
  Forall (fun a => P a = true) (filter P l).
Proof.
  induction l as [|a l IH]; simpl; [constructor|].
  destruct (P a) eqn:E; [constructor|]; assumption.
Qed.

Lemma filter_incl_all {A : Type} (P : A -> bool) (Q : A -> Prop) (l : list A) :
  Forall Q l -> Forall Q (filter P l).
Proof.
  induction 1 as [|a l Ha _ IH]; simpl; [constructor|].
  destruct (P a); [constructor|]; assumption.
Qed.

Lemma filter_id {A : Type} (P : A -> bool) (l : list A) :
  Forall (fun a => P a = true) l -> filter P l = l.
Proof.
  induction 1 as [|a l Ha _ IH]; simpl; [reflexivity|]. rewrite Ha, IH. reflexivity.
Qed.

(** The blocks of any file [ParseShader] accepts. *)
Lemma ParseShader_blocks (fs : filesystem) (filepath : string)
      (source : ShaderProgramSource) :
  ParseShader fs filepath = Ok source ->
  exists lv lf,
    vertexSource source = unlines lv /\ fragmentSource source = unlines lf /\
    interleave lv lf (filter plain_line (getlines (ifstream fs filepath))).
Proof.
  unfold ParseShader. rewrite parse_loop_lines. intros H.
  destruct (parse_lines _ _) as [st' | i] eqn:E; [|discriminate].
  cbn in H. injection H as <-.
  apply (parse_lines_blocks _ [] [] NONE) in E as (lv & lf & -> & Hi).
  exists lv, lf. auto.
Qed.

Lemma ifstream_some (fs : filesystem) (filepath contents : string) :
  fs filepath = Some contents -> ifstream fs filepath = contents.
Proof. unfold ifstream. intros ->. reflexivity. Qed.

Lemma parse_lines_markers_only (lines : list string) :
  Forall (fun line => plain_line line = false) lines ->
  forall st, exists t, parse_lines lines st = Ok {| ss := ss st; type := t |}.
Proof.
  induction 1 as [|line lines Hl _ IH]; intros st; simpl.
  - exists (type st). destruct st. reflexivity.
  - destruct (parse_line_marker st line Hl) as (t & ->). simpl.
    destruct (IH {| ss := ss st; type := t |}) as (t' & ->). eauto.
Qed.

Lemma unlines_empty (lines : list string) :
  unlines lines = EmptyString -> lines = [].
Proof.
  destruct lines as [|line lines]; [reflexivity|]. simpl.
  destruct line; discriminate.
Qed.

Lemma filter_nil_all {A : Type} (P : A -> bool) (l : list A) :
  filter P l = [] -> Forall (fun a => P a = false) l.
Proof.
  induction l as [|a l IH]; simpl; [constructor|].
  destruct (P a) eqn:E; [discriminate|]. constructor; auto.
Qed.

(** ** Statements about ParseShader *)

(** X1. A file made of any number of sections, each introduced by a vertex
    or fragment marker line: the vertex block is the bodies of the vertex
    sections one after the other in file order, and likewise the fragment
    block; a second section of a stage adds to its block. *)
Theorem ParseShader_sections (fs : filesystem) (filepath : string)
    (sections : list section) :
  Forall well_formed sections ->
  getlines (ifstream fs filepath) = file_lines sections ->
  ParseShader fs filepath =
  Ok {| vertexSource := stage_block VERTEX sections;
        fragmentSource := stage_block FRAGMENT sections |}.
Proof.
  intros Hwf Hfile. unfold ParseShader. rewrite parse_loop_lines, Hfile.
  unfold ss_init.
  destruct (parse_lines_sections sections Hwf EmptyString EmptyString NONE)
    as (t' & ->).
  reflexivity.
Qed.

Lemma ParseShader_sections_witness :
  ParseShader
    (one_file "quad.shader"
       (unlines [ "#shader vertex"; "in vec4 position;";
                  "#shader fragment"; "out vec4 color;";
                  "#shader vertex"; "void main() {}" ]))
    "quad.shader"
  = Ok {| vertexSource := unlines ["in vec4 position;"; "void main() {}"];
          fragmentSource := unlines ["out vec4 color;"] |}.
Proof.
  apply (ParseShader_sections _ _
           [ {| stage := VERTEX; marker := "#shader vertex";
                body := ["in vec4 position;"] |};
             {| stage := FRAGMENT; marker := "#shader fragment";
                body := ["out vec4 color;"] |};
             {| stage := VERTEX; marker := "#shader vertex";
                body := ["void main() {}"] |} ]).
  - repeat apply Forall_cons; try apply Forall_nil; split;
      try (apply Forall_cons; [apply starts_no_section_plain; reflexivity
                              | apply Forall_nil]).
    + left. split; [reflexivity|]. split; apply occurs_in_found; reflexivity.
    + right. split; [reflexivity|].
      repeat split; [apply occurs_in_found | apply occurs_in_found
                     | apply not_occurs_in_found]; reflexivity.
    + left. split; [reflexivity|]. split; apply occurs_in_found; reflexivity.
  - vm_compute. reflexivity.
Defined.

(** X2. [ParseShader] leaves the array of streams exactly when a line
    without the marker token comes before every marker line that names a
    stage, and then with index -1; once a stage has been named no line is
    written out of range. *)
Theorem ParseShader_out_of_range_iff (fs : filesystem) (filepath : string) (i : Z) :
  ParseShader fs filepath = OutOfBounds i <->
  i = -1 /\
  exists pre line rest,
    getlines (ifstream fs filepath) = (pre ++ line :: rest)%list /\
    Forall stageless_marker pre /\ ~ occurs_in "#shader" line.
Proof.
  rewrite <- (parse_lines_out_of_range _ EmptyString EmptyString).
  unfold ParseShader. rewrite parse_loop_lines. unfold ss_init.
  destruct (parse_lines _ _); simpl; split; congruence.
Qed.

Lemma ParseShader_out_of_range_iff_witness :
  ParseShader (one_file "quad.shader" (unlines ["#shader"; "void main() {}"]))
              "quad.shader"
  = OutOfBounds (-1).
Proof.
  apply (proj2 (ParseShader_out_of_range_iff _ _ (-1))).
  split; [reflexivity|].
  exists ["#shader"], "void main() {}", []. split; [vm_compute; reflexivity|].
  split.
  - apply Forall_cons; [|apply Forall_nil].
    repeat split; [apply occurs_in_found | apply not_occurs_in_found
                   | apply not_occurs_in_found]; reflexivity.
  - apply not_occurs_in_found. reflexivity.
Defined.

(** X3. [ParseShader] returns two empty blocks exactly when every line of
    the file carries the marker token: in particular for an empty file and
    for a file that cannot be opened, for which no error is raised. *)
Theorem ParseShader_empty_blocks_iff (fs : filesystem) (filepath : string) :
  ParseShader fs filepath
  = Ok {| vertexSource := EmptyString; fragmentSource := EmptyString |} <->
  Forall (occurs_in "#shader") (getlines (ifstream fs filepath)).
Proof.
  split.
  - intros H. apply ParseShader_blocks in H as (lv & lf & Ev & Ef & Hi).
    cbn in Ev, Ef. symmetry in Ev, Ef.
    apply unlines_empty in Ev, Ef. subst lv lf.
    remember (filter plain_line (getlines (ifstream fs filepath))) as l eqn:E.
    inversion Hi; subst l. match goal with H : [] = filter _ _ |- _ =>
      symmetry in H; apply filter_nil_all in H;
      eapply Forall_impl; [|exact H] end.
    intros line. apply marker_line_iff.
  - intros H. unfold ParseShader. rewrite parse_loop_lines.
    destruct (parse_lines_markers_only (getlines (ifstream fs filepath)))
      with (st := {| ss := ss_init; type := NONE |}) as (t & ->).
    + eapply Forall_impl; [|exact H]. intros line. apply marker_line_iff.
    + reflexivity.
Qed.

Lemma ParseShader_empty_blocks_iff_witness :
  ParseShader (fun _ => None) "res/shaders/Basic.shader"
  = Ok {| vertexSource := EmptyString; fragmentSource := EmptyString |}.
Proof.
  apply (proj2 (ParseShader_empty_blocks_iff _ _)).
  vm_compute. apply Forall_nil.
Defined.

(** X4. For every file [ParseShader] accepts, the two blocks are made of
    the file's lines without marker token, each line in one block and
    followed by a line terminator, in the order of the file: no such line is
    lost, doubled or moved. *)
Theorem ParseShader_deals_plain_lines (fs : filesystem) (filepath : string)
    (source : ShaderProgramSource) :
  ParseShader fs filepath = Ok source ->
  exists lv lf,
    vertexSource source = unlines lv /\ fragmentSource source = unlines lf /\
    interleave lv lf (filter plain_line (getlines (ifstream fs filepath))).
Proof. apply ParseShader_blocks. Qed.

Lemma ParseShader_deals_plain_lines_witness :
  exists lv lf,
    vertexSource example_source = unlines lv /\
    fragmentSource example_source = unlines lf /\
    interleave lv lf
      (filter plain_line
         (getlines (ifstream example_fs "res/shaders/Basic.shader"))).
Proof.
  apply (ParseShader_deals_plain_lines example_fs "res/shaders/Basic.shader").
  vm_compute. reflexivity.
Defined.

(** X5. The marker token occurs in neither block [ParseShader] returns. *)
Theorem ParseShader_blocks_without_marker (fs : filesystem) (filepath : string)
    (source : ShaderProgramSource) :
  ParseShader fs filepath = Ok source ->
  ~ occurs_in "#shader" (vertexSource source)
  /\ ~ occurs_in "#shader" (fragmentSource source).
Proof.
  intros H. apply ParseShader_blocks in H as (lv & lf & -> & -> & Hi).
  destruct (interleave_all _ _ _ _ Hi (filter_all plain_line _)) as [Hv Hf].
  split; apply unlines_without_marker; assumption.
Qed.

Lemma ParseShader_blocks_without_marker_witness :
  ~ occurs_in "#shader" (vertexSource example_source)
  /\ ~ occurs_in "#shader" (fragmentSource example_source).
Proof.
  apply (ParseShader_blocks_without_marker example_fs "res/shaders/Basic.shader").
  vm_compute. reflexivity.
Defined.

(** X6. Writing the two blocks [ParseShader] returned into a file, vertex
    section first, and reading that file gives the two blocks back. *)
Theorem ParseShader_write_read (fs fs' : filesystem) (filepath filepath' : string)
    (source : ShaderProgramSource) :
  ParseShader fs filepath = Ok source ->
  fs' filepath' = Some (write_shader source) ->
  ParseShader fs' filepath' = Ok source.
Proof.
  intros H Hfile.
  apply ParseShader_blocks in H as (lv & lf & Ev & Ef & Hi).
  destruct (interleave_all _ _ _ _ Hi (filter_all plain_line _)) as [Pv Pf].
  destruct (interleave_all _ _ _ _ Hi
              (filter_incl_all plain_line _ _ (getlines_no_newline _)))
    as [Nv Nf].
  assert (Hm : forall pat,
             found (find pat (String newline EmptyString)) = false ->
             no_newline pat).
  { intros pat Hp. apply find_none. exact Hp. }
  assert (Hlines : getlines (ifstream fs' filepath')
                   = "#shader vertex" :: lv ++ "#shader fragment" :: lf).
  { rewrite (ifstream_some _ _ _ Hfile). unfold write_shader. rewrite Ev, Ef.
    rewrite <- (getlines_unlines ("#shader vertex" :: lv ++ "#shader fragment" :: lf)).
    - cbn [unlines]. rewrite unlines_app. reflexivity.
    - apply Forall_cons; [apply Hm; reflexivity|].
      apply Forall_app. split; [exact Nv|].
      apply Forall_cons; [apply Hm; reflexivity | exact Nf]. }
  unfold ParseShader. rewrite parse_loop_lines, Hlines. unfold ss_init.
  cbn [parse_lines].
  rewrite parse_line_vertex
    by (split; apply occurs_in_found; reflexivity).
  cbn [bind_outcome ss].
  rewrite parse_lines_app, parse_lines_vertex_body.
  2:{ eapply Forall_impl; [|exact Pv]. apply starts_no_section_plain. }
  cbn [bind_outcome parse_lines].
  rewrite parse_line_fragment
    by (repeat split; [apply occurs_in_found | apply occurs_in_found
                       | apply not_occurs_in_found]; reflexivity).
  cbn [bind_outcome ss].
  rewrite parse_lines_fragment_body.
  2:{ eapply Forall_impl; [|exact Pf]. apply starts_no_section_plain. }
  cbn. unfold block_of. rewrite (filter_id _ _ Pv), (filter_id _ _ Pf).
  rewrite <- Ev, <- Ef. destruct source. reflexivity.
Qed.

Lemma ParseShader_write_read_witness :
  ParseShader (one_file "copy.shader" (write_shader example_source)) "copy.shader"
  = Ok example_source.
Proof.
  apply (ParseShader_write_read example_fs _ "res/shaders/Basic.shader").
  - vm_compute. reflexivity.
  - reflexivity.
Defined.



(** ** Statements about CreateShader and main *)

Lemma created_shaders_app (a b : list obs) :
  created_shaders (a ++ b) = (created_shaders a ++ created_shaders b)%list.
Proof.
  induction a as [|[X e x] a IH]; [reflexivity|].
  destruct e; cbn; rewrite IH; reflexivity.
Qed.

Lemma deleted_shaders_app (a b : list obs) :
  deleted_shaders (a ++ b) = (deleted_shaders a ++ deleted_shaders b)%list.
Proof.
  induction a as [|[X e x] a IH]; [reflexivity|].
  destruct e; cbn; rewrite IH; reflexivity.
Qed.

Lemma CompileShader_begins (type : GLenum) (source : string)
      (tr : list obs) (r : Z) :
  runs (CompileShader type source) tr r ->
  exists id result rest,
    tr = (compile_calls type source id result ++ rest)%list.
Proof.
  intros H. apply CompileShader_runs in H
    as (id & result & [(_ & _ & length & log & ->) | (_ & _ & ->)]);
    exists id, result; eexists; [reflexivity|].
  rewrite app_nil_r. reflexivity.
Qed.

(** X8. In every run of [CreateShader] two stage objects are created, one
    by each [CompileShader]. A stage whose compilation failed is deleted
    inside [CompileShader], which returns 0, and [CreateShader] hands that 0
    to its own [glDeleteShader]; a stage that compiled is not deleted inside
    [CompileShader] and is deleted by [CreateShader] after validation. So
    every handle other than 0 is deleted as often as it was created. *)
Theorem CreateShader_deletes_what_it_creates
    (vertexShader fragmentShader : string) (tr : list obs) (r : Z) :
  runs (CreateShader vertexShader fragmentShader) tr r ->
  exists program idv resv restv vs idf resf restf fs,
    tr = (Obs glCreateProgram program
          :: (compile_calls GL_VERTEX_SHADER vertexShader idv resv ++ restv)
          ++ (compile_calls GL_FRAGMENT_SHADER fragmentShader idf resf ++ restf)
          ++ link_calls program vs fs)%list /\
    runs (CompileShader GL_VERTEX_SHADER vertexShader)
         (compile_calls GL_VERTEX_SHADER vertexShader idv resv ++ restv) vs /\
    runs (CompileShader GL_FRAGMENT_SHADER fragmentShader)
         (compile_calls GL_FRAGMENT_SHADER fragmentShader idf resf ++ restf) fs /\
    (resv = GL_FALSE -> deleted_shaders restv = [idv] /\ vs = 0) /\
    (resv <> GL_FALSE -> restv = [] /\ vs = idv) /\
    (resf = GL_FALSE -> deleted_shaders restf = [idf] /\ fs = 0) /\
    (resf <> GL_FALSE -> restf = [] /\ fs = idf) /\
    created_shaders tr = [idv; idf] /\
    deleted_shaders tr
    = (deleted_shaders restv ++ deleted_shaders restf ++ [vs; fs])%list /\
    forall id,
      id <> 0 ->
      count_occ Z.eq_dec (deleted_shaders tr) id
      = count_occ Z.eq_dec (created_shaders tr) id.
Proof.
  intros H. apply CreateShader_runs in H
    as (program & vs & fs & trv & trf & Hv & Hf & -> & ->).
  pose proof Hv as Rv. pose proof Hf as Rf.
  apply CompileShader_runs in Hv as (idv & resv & Hv).
  apply CompileShader_runs in Hf as (idf & resf & Hf).
  assert (Sv : exists restv,
             trv = (compile_calls GL_VERTEX_SHADER vertexShader idv resv ++ restv)%list /\
             (resv = GL_FALSE -> deleted_shaders restv = [idv] /\ vs = 0) /\
             (resv <> GL_FALSE -> restv = [] /\ vs = idv) /\
             created_shaders restv = []).
  { destruct Hv as [(E & -> & length & log & ->) | (E & -> & ->)].
    - eexists. split; [reflexivity|]. split; [intros _; split; reflexivity|].
      split; [contradiction | reflexivity].
    - exists []. rewrite app_nil_r. split; [reflexivity|].
      split; [contradiction|]. split; [intros _; split; reflexivity | reflexivity]. }
  assert (Sf : exists restf,
             trf = (compile_calls GL_FRAGMENT_SHADER fragmentShader idf resf ++ restf)%list /\
             (resf = GL_FALSE -> deleted_shaders restf = [idf] /\ fs = 0) /\
             (resf <> GL_FALSE -> restf = [] /\ fs = idf) /\
             created_shaders restf = []).
  { destruct Hf as [(E & -> & length & log & ->) | (E & -> & ->)].
    - eexists. split; [reflexivity|]. split; [intros _; split; reflexivity|].
      split; [contradiction | reflexivity].
    - exists []. rewrite app_nil_r. split; [reflexivity|].
      split; [contradiction|]. split; [intros _; split; reflexivity | reflexivity]. }
  clear Hv Hf.
  destruct Sv as (restv & -> & Fv & Tv & Cv), Sf as (restf & -> & Ff & Tf & Cf).
  exists program, idv, resv, restv, vs, idf, resf, restf, fs.
  split; [reflexivity|]. split; [exact Rv|]. split; [exact Rf|].
  split; [exact Fv|]. split; [exact Tv|]. split; [exact Ff|]. split; [exact Tf|].
  assert (C : created_shaders
                (Obs glCreateProgram program
                 :: (compile_calls GL_VERTEX_SHADER vertexShader idv resv ++ restv)
                 ++ (compile_calls GL_FRAGMENT_SHADER fragmentShader idf resf ++ restf)
                 ++ link_calls program vs fs) = [idv; idf]).
  { cbn [created_shaders]. rewrite !created_shaders_app, Cv, Cf. reflexivity. }
  assert (D : deleted_shaders
                (Obs glCreateProgram program
                 :: (compile_calls GL_VERTEX_SHADER vertexShader idv resv ++ restv)
                 ++ (compile_calls GL_FRAGMENT_SHADER fragmentShader idf resf ++ restf)
                 ++ link_calls program vs fs)
              = (deleted_shaders restv ++ deleted_shaders restf ++ [vs; fs])%list).
  { cbn [deleted_shaders]. rewrite !deleted_shaders_app. reflexivity. }
  split; [exact C|]. split; [exact D|].
  intros id Hid. rewrite C, D.
  destruct (Z.eq_dec resv GL_FALSE) as [Ev | Ev], (Z.eq_dec resf GL_FALSE) as [Ef | Ef];
    [ destruct (Fv Ev) as [-> ->] | destruct (Fv Ev) as [-> ->]
    | destruct (Tv Ev) as [-> ->] | destruct (Tv Ev) as [-> ->] ];
    [ destruct (Ff Ef) as [-> ->] | destruct (Tf Ef) as [-> ->]
    | destruct (Ff Ef) as [-> ->] | destruct (Tf Ef) as [-> ->] ];
    cbn [app count_occ deleted_shaders];
    repeat match goal with
           | |- context [Z.eq_dec ?a ?b] => destruct (Z.eq_dec a b)
           end; congruence.
Qed.

(** The vertex stage (handle 1) fails to compile, the fragment stage
    (handle 2) compiles. *)
Lemma CreateShader_deletes_what_it_creates_witness :
  exists program idv resv restv vs idf resf restf fs,
    example_failed_vertex_calls
    = (Obs glCreateProgram program
       :: (compile_calls GL_VERTEX_SHADER "void main() {" idv resv ++ restv)
       ++ (compile_calls GL_FRAGMENT_SHADER "void main() {}" idf resf ++ restf)
       ++ link_calls program vs fs)%list /\
    runs (CompileShader GL_VERTEX_SHADER "void main() {")
         (compile_calls GL_VERTEX_SHADER "void main() {" idv resv ++ restv) vs /\
    runs (CompileShader GL_FRAGMENT_SHADER "void main() {}")
         (compile_calls GL_FRAGMENT_SHADER "void main() {}" idf resf ++ restf) fs /\
    (resv = GL_FALSE -> deleted_shaders restv = [idv] /\ vs = 0) /\
    (resv <> GL_FALSE -> restv = [] /\ vs = idv) /\
    (resf = GL_FALSE -> deleted_shaders restf = [idf] /\ fs = 0) /\
    (resf <> GL_FALSE -> restf = [] /\ fs = idf) /\
    created_shaders example_failed_vertex_calls = [idv; idf] /\
    deleted_shaders example_failed_vertex_calls
    = (deleted_shaders restv ++ deleted_shaders restf ++ [vs; fs])%list /\
    forall id,
      id <> 0 ->
      count_occ Z.eq_dec (deleted_shaders example_failed_vertex_calls) id
      = count_occ Z.eq_dec (created_shaders example_failed_vertex_calls) id.
Proof.
  apply (CreateShader_deletes_what_it_creates "void main() {" "void main() {}" _ 3).
  apply CreateShader_runs. exists 3, 0, 2. eexists _, _.
  split; [|split; [|split; reflexivity]].
  - apply CompileShader_runs. exists 1, GL_FALSE. left.
    split; [reflexivity|]. split; [reflexivity|]. eexists _, _. reflexivity.
  - apply CompileShader_runs. exists 2, 1. right.
    split; [discriminate|]. split; reflexivity.
Defined.

(** X9. [main] ends in one of three ways: with exit code -1 after the one
    call [glfwInit] that failed; with exit code -1 after a failed window
    creation followed by [glfwTerminate]; or with exit code 0, and then the
    window was created and the last calls are the granted close request, the
    release of the program object and [glfwTerminate]. *)
Theorem main_exit_codes (pf : platform) (fs : filesystem) (tr : list obs) (r : Z) :
  runs (main pf fs) tr r ->
  (r = -1 /\
   (tr = [Obs glfwInit 0]
    \/ exists ok,
         ok <> 0 /\
         tr = [ Obs glfwInit ok;
                Obs (glfwCreateWindow 640 480 "Hello World" 0 0) None;
                Obs glfwTerminate tt ]))
  \/ (r = 0 /\
      exists ok window shader close before,
        ok <> 0 /\ close <> 0 /\
        tr = (Obs glfwInit ok
              :: Obs (glfwCreateWindow 640 480 "Hello World" 0 0) (Some window)
              :: before ++ closing_calls window shader close)%list).
Proof.
  intros H. apply main_runs in H
    as [[-> ->] | [(ok & Hok & -> & ->) |
         (ok & window & status & version & buffer & ibo & source & trd
          & Hok & P & Hd & ->)]].
  - left. auto.
  - left. split; [reflexivity|]. right. exists ok. auto.
  - right. apply draw_with_runs in Hd as (shader & trc & trl & _ & Hl & ->).
    apply render_and_shutdown_runs in Hl as (n & close & Hc & -> & ->).
    split; [reflexivity|]. exists ok, window, shader, close.
    eexists. split; [exact Hok|]. split; [exact Hc|].
    unfold startup_calls. cbn [app]. do 2 f_equal.
    rewrite !app_comm_cons, !app_assoc. reflexivity.
Qed.

Lemma main_exit_codes_witness :
  (0 = -1 /\
   (example_calls 0 = [Obs glfwInit 0]
    \/ exists ok,
         ok <> 0 /\
         example_calls 0 =
         [ Obs glfwInit ok;
           Obs (glfwCreateWindow 640 480 "Hello World" 0 0) None;
           Obs glfwTerminate tt ]))
  \/ (0 = 0 /\
      exists ok window shader close before,
        ok <> 0 /\ close <> 0 /\
        example_calls 0 =
        (Obs glfwInit ok
         :: Obs (glfwCreateWindow 640 480 "Hello World" 0 0) (Some window)
         :: before ++ closing_calls window shader close)%list).
Proof.
  apply (main_exit_codes example_platform example_fs). apply example_run.
Defined.





(** *** Reaching the out-of-range access *)















(** X11. When the shader file cannot be opened, [main] goes on. Once GLFW
    has started and the window exists, it uploads the geometry, creates the
    program object and runs [CompileShader] on the empty text for the vertex
    stage and for the fragment stage; whatever these two return, it links,
    draws until the window is closed and ends with exit code 0. Every
    execution that ends with exit code 0 has handed the empty text to the
    driver as source of both stages. *)
Theorem main_compiles_empty_sources (pf : platform) (fs : filesystem) :
  fs "res/shaders/Basic.shader" = None ->
  (forall ok window status version buffer indexBufferObject
          program trv vs trf fs' n close,
      ok <> 0 -> close <> 0 ->
      runs (CompileShader GL_VERTEX_SHADER EmptyString) trv vs ->
      runs (CompileShader GL_FRAGMENT_SHADER EmptyString) trf fs' ->
      runs (main pf fs)
           (startup_calls ok window status version
            ++ upload_calls pf buffer indexBufferObject
            ++ (Obs glCreateProgram program
                :: trv ++ trf ++ link_calls program vs fs')
            ++ Obs (glUseProgram program) tt
            :: frames window n ++ closing_calls window program close)
           0)
  /\ (forall tr,
         runs (main pf fs) tr 0 ->
         exists before idv resv between idf resf after,
           tr = (before
                 ++ compile_calls GL_VERTEX_SHADER EmptyString idv resv
                 ++ between
                 ++ compile_calls GL_FRAGMENT_SHADER EmptyString idf resf
                 ++ after)%list).
Proof.
  intros Hfile.
  assert (P : ParseShader fs "res/shaders/Basic.shader"
              = Ok {| vertexSource := EmptyString; fragmentSource := EmptyString |}).
  { unfold ParseShader, ifstream. rewrite Hfile. reflexivity. }
  split.
  - intros ok window status version buffer ibo program trv vs trf fs' n close
           Hok Hclose Hv Hf.
    apply main_runs. right. right.
    exists ok, window, status, version, buffer, ibo,
      {| vertexSource := EmptyString; fragmentSource := EmptyString |}.
    eexists. split; [exact Hok|]. split; [exact P|]. split; [|reflexivity].
    apply draw_with_runs. exists program. eexists _, _.
    split; [|split; [|reflexivity]].
    + apply CreateShader_runs. exists program, vs, fs', trv, trf.
      split; [exact Hv|]. split; [exact Hf|]. split; reflexivity.
    + apply render_and_shutdown_runs. exists n, close.
      split; [exact Hclose|]. split; reflexivity.
  - intros tr H. apply main_runs in H
      as [[_ E] | [(ok & _ & E & _) |
           (ok & window & status & version & buffer & ibo & source & trd
            & _ & P' & Hd & ->)]]; try discriminate.
    rewrite P in P'. injection P' as <-.
    apply draw_with_runs in Hd as (shader & trc & trl & Hc & _ & ->).
    apply CreateShader_runs in Hc
      as (program & vs & fs' & trv & trf & Hv & Hf & _ & ->).
    apply CompileShader_begins in Hv as (idv & resv & restv & ->).
    apply CompileShader_begins in Hf as (idf & resf & restf & ->).
    cbn [vertexSource fragmentSource].
    exists (startup_calls ok window status version
            ++ upload_calls pf buffer ibo ++ [Obs glCreateProgram program])%list,
      idv, resv, restv, idf, resf.
    eexists. rewrite <- !app_assoc. cbn [app]. rewrite <- !app_assoc.
    reflexivity.
Qed.

(** No file at all: both stages are compiled from the empty text (and here
    accepted by the driver), one frame is drawn, the window is closed. *)
Lemma main_compiles_empty_sources_witness :
  runs (main example_platform (fun _ => None))
       (startup_calls 1 example_window 0 "4.6.0"
        ++ upload_calls example_platform 1 2
        ++ (Obs glCreateProgram 3
            :: compile_calls GL_VERTEX_SHADER EmptyString 1 1
            ++ compile_calls GL_FRAGMENT_SHADER EmptyString 2 1
            ++ link_calls 3 1 2)
        ++ Obs (glUseProgram 3) tt
        :: frames example_window 1 ++ closing_calls example_window 3 1)
       0.
Proof.
  apply (proj1 (main_compiles_empty_sources example_platform (fun _ => None)
                  eq_refl)).
  - discriminate.
  - discriminate.
  - apply CompileShader_runs. exists 1, 1. right.
    split; [discriminate|]. split; reflexivity.
  - apply CompileShader_runs. exists 2, 1. right.
    split; [discriminate|]. split; reflexivity.
Defined.

(** X12. In every execution of [main] that ends with exit code 0, one
    program object is created, and the handle the driver gave for it is the
    one made current with [glUseProgram] before the first frame and the one
    released with [glDeleteProgram] after the last. *)
Theorem main_program_handle (pf : platform) (fs : filesystem) (tr : list obs) :
  runs (main pf fs) tr 0 ->
  exists before program stages window n close,
    close <> 0 /\
    Forall (fun o => is_program_creation o = false) before /\
    Forall (fun o => is_program_creation o = false) stages /\
    tr = (before
          ++ Obs glCreateProgram program
          :: stages
          ++ Obs (glUseProgram program) tt
          :: frames window n ++ closing_calls window program close)%list.
Proof.
  intros H. apply main_runs in H
    as [[_ E] | [(ok & _ & E & _) |
         (ok & window & status & version & buffer & ibo & source & trd
          & _ & _ & Hd & ->)]]; try discriminate.
  apply draw_with_runs in Hd as (shader & trc & trl & Hc & Hl & ->).
  apply render_and_shutdown_runs in Hl as (n & close & Hclose & _ & ->).
  apply CreateShader_runs in Hc
    as (program & vs & fs' & trv & trf & Hv & Hf & -> & ->).
  exists (startup_calls ok window status version
          ++ upload_calls pf buffer ibo)%list,
    program, (trv ++ trf ++ link_calls program vs fs')%list, window, n, close.
  split; [exact Hclose|]. split; [|split].
  - apply Forall_app. split.
    + unfold startup_calls. destruct (status =? GLEW_OK); repeat constructor.
    + repeat constructor.
  - apply CompileShader_runs in Hv
      as (idv & resv & [(_ & _ & lv & logv & ->) | (_ & _ & ->)]);
      apply CompileShader_runs in Hf
        as (idf & resf & [(_ & _ & lf & logf & ->) | (_ & _ & ->)]);
      repeat constructor.
  - rewrite <- !app_assoc. cbn [app]. rewrite <- !app_assoc. reflexivity.
Qed.

Lemma main_program_handle_witness :
  exists before program stages window n close,
    close <> 0 /\
    Forall (fun o => is_program_creation o = false) before /\
    Forall (fun o => is_program_creation o = false) stages /\
    example_calls 0 =
    (before
     ++ Obs glCreateProgram program
     :: stages
     ++ Obs (glUseProgram program) tt
     :: frames window n ++ closing_calls window program close)%list.
Proof.
  apply (main_program_handle example_platform example_fs). apply example_run.
Defined.
